(** * Pompeteer: nested page objects over a browser-automation driver

    A shallow embedding of [src/waitFor.ts], [src/element.pomp.ts] and the
    page class ([PompPage]), followed by the properties of the specification
    that were checked against it.

    Conventions of the embedding.
    - Time is counted in milliseconds, as an integer ([Z]).
    - An asynchronous function is a computation over a [World] that either
      completes with a value or throws; awaiting it advances the clock of
      the world.  Promises that never settle are outside the model.
    - The browser driver (puppeteer) is an external collaborator: a [Driver]
      record gives, for every instant, the answer and the latency of each
      driver call the library makes. *)

From Stdlib Require Import ZArith String Ascii List Bool Lia DecimalString.
Import ListNotations.
Local Open Scope Z_scope.

(* ================================================================== *)
(** * Values, errors and the asynchronous monad *)
(* ================================================================== *)

(** [ElementHandle<Element>]: a driver-owned reference to a DOM node. *)
Definition Handle := nat.

(** Where a driver query is evaluated: the whole document ([page.$x], ...)
    or below a resolved node ([self.$x], ...). *)
Inductive Scope :=
| Document
| Within (self : Handle).

(** The driver calls issued by the library. *)
Inductive Query :=
| QXPath (sc : Scope) (selector : string)
| QSelectorAll (sc : Scope) (selector : string)
| QWaitForSelector (sc : Scope) (selector : string) (timeout : option Z)
| QGetProperty (h : Handle) (name : string).

Inductive Error :=
| TypeError (msg : string)
| PompTimeoutError (selector : string) (timeout : Z)
| DriverError (msg : string)
| OutOfFuel.

(** Outcome of a call: a returned value or a thrown error. *)
Inductive Res (A : Type) :=
| Ok (a : A)
| Throw (e : Error).
Arguments Ok {A} a.
Arguments Throw {A} e.

(** The state threaded through every asynchronous computation. *)
Record World := mkWorld {
  now : Z;                      (* clock of the event loop *)
  next_id : nat;                (* allocator for object identities *)
  trace : list (Z * Query);     (* driver calls so far, oldest first *)
  calls : list nat              (* callback invocations: ids of the items *)
}.

Definition setNow (t : Z) (w : World) : World :=
  mkWorld t (next_id w) (trace w) (calls w).

Definition M (A : Type) : Type := World -> Res A * World.

Definition ret {A} (a : A) : M A := fun w => (Ok a, w).

Definition throw {A} (e : Error) : M A := fun w => (Throw e, w).

Definition bind {A B} (m : M A) (k : A -> M B) : M B :=
  fun w =>
    match m w with
    | (Ok a, w') => k a w'
    | (Throw e, w') => (Throw e, w')
    end.

(** [try { m } catch { h }] *)
Definition try_catch {A} (m : M A) (h : Error -> M A) : M A :=
  fun w =>
    match m w with
    | (Ok a, w') => (Ok a, w')
    | (Throw e, w') => h e w'
    end.

Declare Scope async_scope.
Delimit Scope async_scope with async.
Notation "x <- m ;; k" := (bind m (fun x => k))
  (at level 61, m at next level, right associativity) : async_scope.
Notation "m ;;; k" := (bind m (fun _ => k))
  (at level 61, right associativity) : async_scope.
Local Open Scope async_scope.

(** A started asynchronous call: its outcome and the instant it settles.
    The effects of the call on the world happen when it is started. *)
Record Promise (A : Type) := mkPromise {
  p_outcome : Res A;
  p_at : Z
}.
Arguments mkPromise {A} _ _.
Arguments p_outcome {A} _.
Arguments p_at {A} _.

(** Calling an async function without awaiting it. *)
Definition spawn {A} (m : M A) : M (Promise A) :=
  fun w =>
    let '(r, w') := m w in
    (Ok (mkPromise r (Z.max (now w) (now w'))), setNow (now w) w').

Definition await {A} (p : Promise A) : M A :=
  fun w => (p_outcome p, setNow (Z.max (now w) (p_at p)) w).

(** Allocation of a fresh object identity ([new ...]). *)
Definition fresh : M nat :=
  fun w => (Ok (next_id w), mkWorld (now w) (S (next_id w)) (trace w) (calls w)).

(** Record that a user callback is invoked on the item with identity [i]. *)
Definition noteCall (i : nat) : M unit :=
  fun w => (Ok tt, mkWorld (now w) (next_id w) (trace w) (calls w ++ [i])).

(* ================================================================== *)
(** * The driver and the page *)
(* ================================================================== *)

(** Answer of the driver to a call made at a given instant: the outcome and
    the time the call takes (negative latencies count as zero). *)
Definition Reply (A : Type) : Type := Z -> Res A * Z.

Record Driver := mkDriver {
  xpath : Scope -> string -> Reply (list Handle);          (* $x *)
  querySelectorAll : Scope -> string -> Reply (list Handle); (* $$ *)
  waitForSelector : Scope -> string -> option Z -> Reply Handle;
  getProperty : Handle -> string -> Reply string   (* getProperty(..).jsonValue() *)
}.

(** [_timeoutSettings.timeout]: [None] when the method is missing. *)
Record TimeoutSettings := mkTimeoutSettings {
  ts_timeout : option Z
}.

(** The puppeteer [Page]; [_timeoutSettings] is [None] when the object has no
    such property. *)
Record Page := mkPage {
  _timeoutSettings : option TimeoutSettings;
  driver : Driver
}.

(** Issue one driver call: log it, take its answer, let its latency pass. *)
Definition ask {A} (q : Query) (reply : Reply A) : M A :=
  fun w =>
    let '(r, d) := reply (now w) in
    (r, mkWorld (now w + Z.max 0 d) (next_id w) (trace w ++ [(now w, q)]) (calls w)).

Definition drv_xpath (page : Page) (sc : Scope) (selector : string) : M (list Handle) :=
  ask (QXPath sc selector) (xpath (driver page) sc selector).

Definition drv_querySelectorAll (page : Page) (sc : Scope) (selector : string)
  : M (list Handle) :=
  ask (QSelectorAll sc selector) (querySelectorAll (driver page) sc selector).

Definition drv_waitForSelector (page : Page) (sc : Scope) (selector : string)
  (timeout : option Z) : M Handle :=
  ask (QWaitForSelector sc selector timeout)
      (waitForSelector (driver page) sc selector timeout).

Definition drv_getProperty (page : Page) (h : Handle) (name : string) : M string :=
  ask (QGetProperty h name) (getProperty (driver page) h name).

(* ================================================================== *)
(** * waitFor.ts *)
(* ================================================================== *)

(** Truthiness of an optional number: [undefined] and [0] are falsy. *)
Definition truthyNumber (v : option Z) : bool :=
  match v with
  | Some z => negb (z =? 0)
  | None => false
  end.

(** [(page as any)._timeoutSettings.timeout()]: a property access without
    optional chaining, which throws when a link of the chain is missing. *)
Definition sessionTimeout (page : Page) : Res Z :=
  match _timeoutSettings page with
  | None => Throw (TypeError "Cannot read properties of undefined (reading 'timeout')")
  | Some ts =>
      match ts_timeout ts with
      | None => Throw (TypeError "_timeoutSettings.timeout is not a function")
      | Some z => Ok z
      end
  end.

(** [(page as any)?._timeoutSettings?.timeout?.()]: [None] stands for
    [undefined]. *)
Definition sessionTimeoutOptional (page : Page) : option Z :=
  match _timeoutSettings page with
  | None => None
  | Some ts => ts_timeout ts
  end.

(** [timeout = timeout || (page as any)._timeoutSettings.timeout() || 10000]
    (waitFor.ts, line 18). *)
Definition effectiveTimeout (page : Page) (timeout : option Z) : Res Z :=
  match timeout with
  | Some t =>
      if truthyNumber (Some t) then Ok t
      else match sessionTimeout page with
           | Throw e => Throw e
           | Ok z => if truthyNumber (Some z) then Ok z else Ok 10000
           end
  | None =>
      match sessionTimeout page with
      | Throw e => Throw e
      | Ok z => if truthyNumber (Some z) then Ok z else Ok 10000
      end
  end.

(** The [interval = 500] default parameter. *)
Definition effectiveInterval (interval : option Z) : Z :=
  match interval with
  | Some i => i
  | None => 500
  end.

(** [timeout || (page as any)?._timeoutSettings?.timeout?.() || 10000]
    (waitFor.ts, line 48). *)
Definition errorTimeout (page : Page) (timeout : option Z) : Z :=
  match timeout with
  | Some t =>
      if truthyNumber (Some t) then t
      else match sessionTimeoutOptional page with
           | Some z => if truthyNumber (Some z) then z else 10000
           | None => 10000
           end
  | None =>
      match sessionTimeoutOptional page with
      | Some z => if truthyNumber (Some z) then z else 10000
      | None => 10000
      end
  end.

(** [new PompTimeoutError(page, selector, timeout)] *)
Definition newPompTimeoutError (page : Page) (selector : string)
  (timeout : option Z) : Error :=
  PompTimeoutError selector (errorTimeout page timeout).

Definition dquote : string := String (ascii_of_nat 34) EmptyString.

Definition showNumber (z : Z) : string := NilZero.string_of_int (Z.to_int z).

(** The [message] of an error; for [PompTimeoutError] the template of
    waitFor.ts, line 50. *)
Definition message (e : Error) : string :=
  match e with
  | TypeError msg => msg
  | PompTimeoutError selector timeout =>
      ("waiting for selector " ++ dquote ++ selector ++ dquote
       ++ " failed: timeout " ++ showNumber timeout ++ "ms exceeded")%string
  | DriverError msg => msg
  | OutOfFuel => "out of fuel"%string
  end.

(** Delay of a runtime timer: Node.js replaces a delay below 1 or above
    2^31-1 by 1. *)
Definition TIMEOUT_MAX : Z := 2147483647.

Definition timerDelay (d : Z) : Z :=
  if (d <? 1) || (TIMEOUT_MAX <? d) then 1 else d.

Inductive PollEvent :=
| Invoked (t : Z)    (* [predicate()] is called at [t] *)
| Settled (t : Z).   (* the promise of [waitFor] is resolved at [t] *)

Definition isSettled (e : PollEvent) : bool :=
  match e with Settled _ => true | Invoked _ => false end.

Definition isInvoked (e : PollEvent) : bool :=
  match e with Invoked _ => true | Settled _ => false end.

Section Poller.
Context {A : Type}.
(** JavaScript truthiness of the values the predicate produces. *)
Variable truthy : A -> bool.
Variable predicate : M A.
(** Delay of [setInterval], already normalised by the runtime. *)
Variable every : Z.

(** The event loop as seen by one call of [waitFor]. *)
Record PollState := mkPoll {
  ps_world : World;
  trier : option Z;               (* next firing of the interval timer *)
  quitter : option Z;             (* firing of the deadline timer *)
  inflight : list (Z * Res A);    (* pending [await predicate()] *)
  settled : option (Z * option A);(* first [resolve(..)]: instant, value *)
  plog : list PollEvent           (* newest event first *)
}.

Definition clearInterval (s : PollState) : PollState :=
  mkPoll (ps_world s) None (quitter s) (inflight s) (settled s) (plog s).

Definition clearTimeout (s : PollState) : PollState :=
  mkPoll (ps_world s) (trier s) None (inflight s) (settled s) (plog s).

Definition setInflight (l : list (Z * Res A)) (s : PollState) : PollState :=
  mkPoll (ps_world s) (trier s) (quitter s) l (settled s) (plog s).

(** [resolve(v)]: only the first call settles the promise. *)
Definition resolve (t : Z) (v : option A) (s : PollState) : PollState :=
  match settled s with
  | Some _ => s
  | None =>
      mkPoll (ps_world s) (trier s) (quitter s) (inflight s)
             (Some (t, v)) (Settled t :: plog s)
  end.

(** The interval timer fires at [t]: [success] starts and calls the
    predicate; the rest of [success] waits for the predicate's promise. *)
Definition onTrier (t : Z) (s : PollState) : PollState :=
  let '(r, w') := predicate (setNow t (ps_world s)) in
  mkPoll (setNow t w') (Some (t + every)) (quitter s)
         (inflight s ++ [(Z.max t (now w'), r)])
         (settled s) (Invoked t :: plog s).

(** The rest of [success], once the predicate's promise has settled. *)
Definition onCompletion (t : Z) (r : Res A) (s : PollState) : PollState :=
  match r with
  | Ok result =>
      if truthy result
      then resolve t (Some result) (clearTimeout (clearInterval s))
      else s
  | Throw _ => s
  end.

(** A one-shot timer that has fired is no longer pending. *)
Definition expireQuitter (s : PollState) : PollState :=
  mkPoll (ps_world s) (trier s) None (inflight s) (settled s) (plog s).

(** The deadline timer fires at [t]: [clearInterval(trier); resolve(null)]. *)
Definition onQuitter (t : Z) (s : PollState) : PollState :=
  resolve t None (clearInterval (expireQuitter s)).

(** The pending continuation that is due first (the oldest one on a tie),
    and the others. *)
Fixpoint earliest (l : list (Z * Res A))
  : option ((Z * Res A) * list (Z * Res A)) :=
  match l with
  | [] => None
  | x :: rest =>
      match earliest rest with
      | None => Some (x, [])
      | Some (y, rest') =>
          if fst x <=? fst y then Some (x, rest) else Some (y, x :: rest')
      end
  end.

Definition notAfter (c : Z) (timer : option Z) : bool :=
  match timer with
  | Some t => c <=? t
  | None => true
  end.

(** The interval timer has fired before: since then it is armed anew at
    each firing, hence later than the deadline timer was. *)
Definition rearmed (s : PollState) : bool := existsb isInvoked (plog s).

(** Of the two timers the one due first fires; when both are due at the
    same instant, the one that was armed first: the interval timer
    ([setInterval] is called before [setTimeout]) as long as it has not
    fired yet, the deadline timer afterwards. *)
Definition trierFirst (s : PollState) (f q : Z) : bool :=
  (f <? q) || ((f =? q) && negb (rearmed s)).

Definition fireTimer (s : PollState) : PollState :=
  match trier s, quitter s with
  | Some f, Some q => if trierFirst s f q then onTrier f s else onQuitter q s
  | Some f, None => onTrier f s
  | None, Some q => onQuitter q s
  | None, None => s
  end.

(** One turn of the event loop: the earliest pending event runs; on equal
    instants a settled predicate comes before a timer, and of the two
    timers the one armed first (see [trierFirst]). *)
Definition step (s : PollState) : PollState :=
  match earliest (inflight s) with
  | Some ((c, r), rest) =>
      if notAfter c (trier s) && notAfter c (quitter s)
      then onCompletion c r (setInflight rest s)
      else fireTimer s
  | None => fireTimer s
  end.

Definition quiescent (s : PollState) : bool :=
  match trier s, quitter s, inflight s with
  | None, None, [] => true
  | _, _, _ => false
  end.

(** State right after [setInterval(success, interval)] and
    [setTimeout(.., timeout)], with [deadline] the normalised timeout. *)
Definition pollStart (deadline : Z) (w : World) : PollState :=
  mkPoll w (Some (now w + every)) (Some (now w + deadline)) [] None [].

Definition pollSteps (n : nat) (s : PollState) : PollState :=
  Nat.iter n step s.

Definition pollFuel (deadline : Z) : nat :=
  Z.to_nat (2 * (deadline / every) + 2).

Definition pollRun (deadline : Z) (w : World) : PollState :=
  pollSteps (pollFuel deadline) (pollStart deadline w).
End Poller.

Arguments PollState A : clear implicits.

(** [waitFor(page, predicate, timeout, interval)], awaited. *)
Definition waitFor {A} (truthy : A -> bool) (page : Page) (predicate : M A)
  (timeout : option Z) (interval : option Z) : M (option A) :=
  fun w =>
    match effectiveTimeout page timeout with
    | Throw e => (Throw e, w)
    | Ok t =>
        let s := pollRun truthy predicate (timerDelay (effectiveInterval interval))
                         (timerDelay t) w in
        match settled s with
        | Some (at_, v) => (Ok v, setNow at_ (ps_world s))
        | None => (Throw OutOfFuel, ps_world s)
        end
    end.

(* ================================================================== *)
(** * element.pomp.ts *)
(* ================================================================== *)

(** Truthiness of an object reference (a handle, an array, a promise). *)
Definition truthyObject {A} (_ : A) : bool := true.

(** Truthiness of [els[0]]: a handle, or [undefined] on an empty array. *)
Definition truthyFirst (v : option Handle) : bool :=
  match v with
  | Some h => truthyObject h
  | None => false
  end.

(** [class PompElement]: [fetch] is the public constructor parameter;
    [el_type] names the custom class the object was built with, if any;
    [el_id] is the identity of the object. *)
Record PompElement := mkElement {
  el_id : nat;
  el_type : option string;
  el_page : Page;
  fetch : option Z -> M Handle
}.

(** [Type ? new Type(page, fetcher) : (new PompElement(page, fetcher) as T)] *)
Definition newElement (Type_ : option string) (page : Page)
  (fetcher : option Z -> M Handle) : M PompElement :=
  i <- fresh ;;
  ret (mkElement i Type_ page fetcher).

(** [class PompElementCollection] *)
Record PompElementCollection := mkCollection {
  c_page : Page;
  c_fetch : option Z -> M (list PompElement)
}.

(** [String.prototype.split] with a one-character separator. *)
Fixpoint split (sep : ascii) (s : string) : list string :=
  match s with
  | EmptyString => [EmptyString]
  | String c rest =>
      if Ascii.eqb c sep then EmptyString :: split sep rest
      else match split sep rest with
           | tok :: toks => String c tok :: toks
           | [] => [String c EmptyString]
           end
  end.

(** [Array.prototype.join] *)
Fixpoint join (sep : string) (toks : list string) : string :=
  match toks with
  | [] => EmptyString
  | [tok] => tok
  | tok :: rest => (tok ++ sep ++ join sep rest)%string
  end.

Definition space : ascii := " "%char.

(** Characters [String.prototype.trim] and the regular expression class
    [\s] treat as white space, among the 8-bit characters. *)
Definition isWhitespace (c : ascii) : bool :=
  match nat_of_ascii c with
  | 9 | 10 | 11 | 12 | 13 | 32 | 160 => true
  | _ => false
  end%nat.

Fixpoint containsChar (p : ascii -> bool) (s : string) : bool :=
  match s with
  | EmptyString => false
  | String c rest => p c || containsChar p rest
  end.

Fixpoint countChar (c : ascii) (s : string) : nat :=
  match s with
  | EmptyString => O
  | String d rest => if Ascii.eqb d c then S (countChar c rest) else countChar c rest
  end.

(** [Promise.all]: the values in the order of the promises once all are
    fulfilled, or the rejection that comes first in time. *)
Fixpoint firstRejection {A} (ps : list (Promise A)) : option (Error * Z) :=
  match ps with
  | [] => None
  | p :: rest =>
      match p_outcome p, firstRejection rest with
      | Throw e, Some (e', t') =>
          if p_at p <=? t' then Some (e, p_at p) else Some (e', t')
      | Throw e, None => Some (e, p_at p)
      | Ok _, later => later
      end
  end.

Fixpoint fulfilled {A} (ps : list (Promise A)) : list A :=
  match ps with
  | [] => []
  | p :: rest =>
      match p_outcome p with
      | Ok a => a :: fulfilled rest
      | Throw _ => fulfilled rest
      end
  end.

Fixpoint lastSettled {A} (ps : list (Promise A)) (t : Z) : Z :=
  match ps with
  | [] => t
  | p :: rest => lastSettled rest (Z.max t (p_at p))
  end.

Definition Promise_all {A} (ps : list (Promise A)) : M (Promise (list A)) :=
  fun w =>
    match firstRejection ps with
    | Some (e, t) => (Ok (mkPromise (Throw e) (Z.max (now w) t)), w)
    | None => (Ok (mkPromise (Ok (fulfilled ps)) (lastSettled ps (now w))), w)
    end.

(** [array.map(f)] for an [f] that starts an asynchronous call: the calls
    are started one after the other, in the order of the array. *)
Fixpoint spawnAll {A B} (f : A -> M B) (l : list A) : M (list (Promise B)) :=
  match l with
  | [] => ret []
  | a :: rest =>
      p <- spawn (f a) ;;
      ps <- spawnAll f rest ;;
      ret (p :: ps)
  end.

(** Invocation of a user predicate on an item of a collection. *)
Definition callPredicate (predicate : PompElement -> M bool) (el : PompElement)
  : M bool :=
  noteCall (el_id el) ;;;
  predicate el.

(** [async (el) => ({ el, isValid: await predicate(el) })] *)
Definition validate (predicate : PompElement -> M bool) (el : PompElement)
  : M (PompElement * bool) :=
  isValid <- callPredicate predicate el ;;
  ret (el, isValid).

Module Collection.

(** [collection.map((el) => ...)] in the constructor's [fetch]. *)
Fixpoint wrap (Type_ : option string) (page : Page) (collection : list Handle)
  : M (list PompElement) :=
  match collection with
  | [] => ret []
  | el :: rest =>
      let fetcher := fun _ : option Z => ret el in
      item <- newElement Type_ page fetcher ;;
      items <- wrap Type_ page rest ;;
      ret (item :: items)
  end.

(** [new PompElementCollection(page, collectionFetcher, Type)] *)
Definition new (page : Page) (collectionFetcher : option Z -> M (list Handle))
  (Type_ : option string) : PompElementCollection :=
  mkCollection page
    (fun timeout =>
       collection <- collectionFetcher timeout ;;
       wrap Type_ page collection).

(** The [for (const el of els)] loop of [find]. *)
Fixpoint findLoop (predicate : PompElement -> M bool) (els : list PompElement)
  : M (option PompElement) :=
  match els with
  | [] => ret None
  | el :: rest =>
      found <- callPredicate predicate el ;;
      if found then ret (Some el) else findLoop predicate rest
  end.

Definition find (this : PompElementCollection)
  (predicate : PompElement -> M bool) : M (option PompElement) :=
  els <- c_fetch this None ;;
  findLoop predicate els.

Definition filter (this : PompElementCollection)
  (predicate : PompElement -> M bool) : M (list PompElement) :=
  els <- c_fetch this None ;;
  started <- spawnAll (validate predicate) els ;;
  all <- Promise_all started ;;
  validations <- await all ;;
  ret (map fst (List.filter snd validations)).

End Collection.

Module Element.

Definition exists_ (this : PompElement) (timeout : Z) : M bool :=
  try_catch
    (h <- fetch this (Some timeout) ;;
     ret (negb (negb (truthyObject h))))
    (fun _ => ret false).

Definition classes (this : PompElement) : M (list string) :=
  el <- fetch this None ;;
  value <- drv_getProperty (el_page this) el "className" ;;
  ret (split space value).

(** The predicate polled by [$x] and [$$x]. *)
Definition firstMatch (page : Page) (sc : Scope) (selector : string)
  : M (option Handle) :=
  els <- drv_xpath page sc selector ;;
  ret (hd_error els).

(** The [fetcher] closure of [$x]. *)
Definition dollar_x_fetcher (this : PompElement) (selector : string)
  : option Z -> M Handle :=
  fun timeout =>
    self <- fetch this None ;;
    el <- waitFor truthyFirst (el_page this)
            (firstMatch (el_page this) (Within self) selector) timeout None ;;
    match el with
    | Some (Some h) => ret h
    | _ => throw (newPompTimeoutError (el_page this) selector timeout)
    end.

Definition dollar_x (this : PompElement) (selector : string)
  (Type_ : option string) : M PompElement :=
  newElement Type_ (el_page this) (dollar_x_fetcher this selector).

(** The [fetcher] closure of [$$x]; [el] is the promise returned by
    [self.$x(selector)], which is not awaited before the test. *)
Definition dollar_dollar_x_fetcher (this : PompElement) (selector : string)
  : option Z -> M (list Handle) :=
  fun timeout =>
    self <- fetch this None ;;
    waitFor truthyFirst (el_page this)
      (firstMatch (el_page this) (Within self) selector) timeout None ;;;
    el <- spawn (drv_xpath (el_page this) (Within self) selector) ;;
    if negb (truthyObject el)
    then throw (newPompTimeoutError (el_page this) selector timeout)
    else await el.

Definition dollar_dollar_x (this : PompElement) (selector : string)
  (Type_ : option string) : PompElementCollection :=
  Collection.new (el_page this) (dollar_dollar_x_fetcher this selector) Type_.

(** The [fetcher] closure of [$]. *)
Definition dollar_fetcher (this : PompElement) (selector : string)
  : option Z -> M Handle :=
  fun timeout =>
    self <- fetch this None ;;
    drv_waitForSelector (el_page this) (Within self) selector timeout.

Definition dollar (this : PompElement) (selector : string)
  (Type_ : option string) : M PompElement :=
  newElement Type_ (el_page this) (dollar_fetcher this selector).

(** The [fetcher] closure of [$$]. *)
Definition dollar_dollar_fetcher (this : PompElement) (selector : string)
  : option Z -> M (list Handle) :=
  fun timeout =>
    self <- fetch this None ;;
    try_catch
      (drv_waitForSelector (el_page this) (Within self) selector timeout ;;;
       ret tt)
      (fun _ => ret tt) ;;;
    els <- drv_querySelectorAll (el_page this) (Within self) selector ;;
    ret els.

Definition dollar_dollar (this : PompElement) (selector : string)
  (Type_ : option string) : PompElementCollection :=
  Collection.new (el_page this) (dollar_dollar_fetcher this selector) Type_.

End Element.

(* ================================================================== *)
(** * The page class (PompPage) *)
(* ================================================================== *)

Record PompPage := mkPompPage {
  pg_page : Page
}.

Module PageObject.

Definition dollar_x_fetcher (this : PompPage) (selector : string)
  : option Z -> M Handle :=
  fun timeout =>
    el <- waitFor truthyFirst (pg_page this)
            (Element.firstMatch (pg_page this) Document selector) timeout None ;;
    match el with
    | Some (Some h) => ret h
    | _ => throw (newPompTimeoutError (pg_page this) selector timeout)
    end.

Definition dollar_x (this : PompPage) (selector : string)
  (Type_ : option string) : M PompElement :=
  newElement Type_ (pg_page this) (dollar_x_fetcher this selector).

Definition dollar_dollar_x_fetcher (this : PompPage) (selector : string)
  : option Z -> M (list Handle) :=
  fun timeout =>
    waitFor truthyFirst (pg_page this)
      (Element.firstMatch (pg_page this) Document selector) timeout None ;;;
    el <- spawn (drv_xpath (pg_page this) Document selector) ;;
    if negb (truthyObject el)
    then throw (newPompTimeoutError (pg_page this) selector timeout)
    else await el.

Definition dollar_dollar_x (this : PompPage) (selector : string)
  (Type_ : option string) : PompElementCollection :=
  Collection.new (pg_page this) (dollar_dollar_x_fetcher this selector) Type_.

Definition dollar_fetcher (this : PompPage) (selector : string)
  : option Z -> M Handle :=
  fun timeout =>
    drv_waitForSelector (pg_page this) Document selector timeout.

Definition dollar (this : PompPage) (selector : string)
  (Type_ : option string) : M PompElement :=
  newElement Type_ (pg_page this) (dollar_fetcher this selector).

Definition dollar_dollar_fetcher (this : PompPage) (selector : string)
  : option Z -> M (list Handle) :=
  fun timeout =>
    try_catch
      (drv_waitForSelector (pg_page this) Document selector timeout ;;;
       ret tt)
      (fun _ => ret tt) ;;;
    els <- drv_querySelectorAll (pg_page this) Document selector ;;
    ret els.

Definition dollar_dollar (this : PompPage) (selector : string)
  (Type_ : option string) : PompElementCollection :=
  Collection.new (pg_page this) (dollar_dollar_fetcher this selector) Type_.

End PageObject.

(* ================================================================== *)
(** * A sample session *)
(* ================================================================== *)

(** A document with one list [ul] (node 1) holding three items (nodes 2, 3
    and 4), and a node 7 that appears 1200 ms after the start. *)
Module Sample.
Local Open Scope string_scope.
Local Open Scope Z_scope.

Definition sel (a b : string) : bool := String.eqb a b.

Definition sampleXPath (sc : Scope) (selector : string) : Reply (list Handle) :=
  fun t =>
    match sc with
    | Document =>
        if sel selector "//ul" then (Ok [1%nat], 2)
        else if sel selector "//late" then
               (if 1200 <=? t then (Ok [7%nat], 2) else (Ok [], 2))
        else (Ok [], 2)
    | Within 1%nat =>
        if sel selector ".//li" then (Ok [2%nat; 3%nat; 4%nat], 2) else (Ok [], 2)
    | Within _ => (Ok [], 2)
    end.

Definition sampleSelectorAll (sc : Scope) (selector : string)
  : Reply (list Handle) :=
  fun _ =>
    match sc with
    | Document | Within 1%nat =>
        if sel selector "li" then (Ok [2%nat; 3%nat; 4%nat], 2) else (Ok [], 2)
    | Within _ => (Ok [], 2)
    end.

Definition sampleWaitForSelector (sc : Scope) (selector : string)
  (timeout : option Z) : Reply Handle :=
  fun _ =>
    let patience := match timeout with Some t => t | None => 30000 end in
    match sc with
    | Document =>
        if sel selector "ul" then (Ok 1%nat, 5)
        else (Throw (DriverError "TimeoutError: waiting for selector failed"),
              patience)
    | Within 1%nat =>
        if sel selector "li" then (Ok 2%nat, 5)
        else (Throw (DriverError "TimeoutError: waiting for selector failed"),
              patience)
    | Within _ =>
        (Throw (DriverError "TimeoutError: waiting for selector failed"),
         patience)
    end.

Definition sampleGetProperty (h : Handle) (name : string) : Reply string :=
  fun _ =>
    if sel name "className" then
      match h with
      | 1%nat => (Ok "list  wide", 1)
      | _ => (Ok "item", 1)
      end
    else (Ok "", 1).

Definition sampleDriver : Driver :=
  mkDriver sampleXPath sampleSelectorAll sampleWaitForSelector sampleGetProperty.

(** A session whose default timeout is 2000 ms. *)
Definition session : Page :=
  mkPage (Some (mkTimeoutSettings (Some 2000))) sampleDriver.

(** A session object without [_timeoutSettings]. *)
Definition bareSession : Page := mkPage None sampleDriver.

Definition start : World := mkWorld 0 0 [] [].

Definition root : PompPage := mkPompPage session.

(** [page.$x("//ul")], [page.$x("//missing")] and elements nested in them,
    with explicit identities. *)
Definition list_ : PompElement :=
  mkElement 100 None session (PageObject.dollar_x_fetcher root "//ul").

Definition missing : PompElement :=
  mkElement 101 None session (PageObject.dollar_x_fetcher root "//missing").

Definition missingChild : PompElement :=
  mkElement 102 None session (Element.dollar_x_fetcher missing ".//b").

Definition missingGrandChild : PompElement :=
  mkElement 103 None session (Element.dollar_x_fetcher missingChild ".//c").

Definition items : PompElementCollection :=
  Element.dollar_dollar list_ "li" (Some "Item").

(** The item a fetch of [items] builds for node [h] under identity [i]. *)
Definition pinned (i : nat) (h : Handle) : PompElement :=
  mkElement i (Some "Item") session (fun _ => ret h).

(** A predicate that holds of the items pinned to an even node. *)
Definition evenNode (el : PompElement) : M bool :=
  h <- fetch el None ;;
  ret (Nat.even h).

(** A predicate that holds of the item pinned to node 3 only. *)
Definition isThird (el : PompElement) : M bool :=
  h <- fetch el None ;;
  ret (Nat.eqb h 3).
End Sample.

(* ================================================================== *)
(** * Notions used to state and prove the properties *)
(* ================================================================== *)

(** The predicate applied to the items one after the other, each call
    awaited before the next one starts. *)
Fixpoint evalEach (predicate : PompElement -> M bool) (els : list PompElement)
  : M (list bool) :=
  match els with
  | [] => ret []
  | el :: rest =>
      b <- callPredicate predicate el ;;
      bs <- evalEach predicate rest ;;
      ret (b :: bs)
  end.

(** The items whose verdict is [true], in the order of the items. *)
Definition keep (els : list PompElement) (verdicts : list bool)
  : list PompElement :=
  map fst (List.filter snd (combine els verdicts)).

(** The items [fetch] builds for the handles [hs] when the next free
    identity is [n]: one new object per handle, pinned to that handle. *)
Fixpoint pinnedItems (Type_ : option string) (page : Page) (hs : list Handle)
  (n : nat) : list PompElement :=
  match hs with
  | [] => []
  | h :: rest =>
      mkElement n Type_ page (fun _ => ret h)
      :: pinnedItems Type_ page rest (S n)
  end.

(** A callback that, on the items of [l], leaves the record of callback
    invocations alone. *)
Definition keepsCalls {A B} (f : A -> M B) (l : list A) : Prop :=
  forall a : A, In a l -> forall w : World, calls (snd (f a w)) = calls w.

(** In a log (newest event first), no call of the predicate comes after the
    promise was settled. *)
Fixpoint orderedLog (l : list PollEvent) : bool :=
  match l with
  | [] => true
  | Invoked _ :: earlier => negb (existsb isSettled earlier) && orderedLog earlier
  | Settled _ :: earlier => orderedLog earlier
  end.

(** Firings the interval timer still has before the deadline. *)
Definition ticks (every f q : Z) : Z :=
  if f <=? q then (q - f) / every + 1 else 0.

(** A bound on the number of events the loop still has to run. *)
Definition potential {A} (every : Z) (s : PollState A) : Z :=
  Z.of_nat (length (inflight s))
  + match trier s, quitter s with
    | Some f, Some q => 1 + 2 * ticks every f q
    | None, None => 0
    | _, _ => 1
    end.

(** What holds of every state the loop of [waitFor] goes through, for a
    deadline at instant [Q] and a property [P] of the predicate's
    outcomes. *)
Record PollInv {A} (truthy : A -> bool) (Q : Z) (P : Res A -> Prop)
  (s : PollState A) : Prop := mkPollInv {
  inv_timers : trier s = None <-> quitter s = None;
  inv_settled : settled s = None <-> quitter s <> None;
  inv_deadline : forall q : Z, quitter s = Some q -> q = Q;
  inv_value :
    forall (t : Z) (v : option A),
      settled s = Some (t, v) ->
      t <= Q /\ match v with
                | Some a => truthy a = true /\ P (Ok a)
                | None => t = Q
                end;
  inv_inflight : Forall (fun cr => P (snd cr)) (inflight s);
  inv_log : orderedLog (plog s) = true;
  inv_unsettled : settled s = None -> existsb isSettled (plog s) = false
}.

(* ================================================================== *)
(** * Further operations of the source and notions for their properties *)
(* ================================================================== *)

(** [String.prototype.trim], on the 8-bit characters: white space is removed
    from both ends. *)
Fixpoint trimStart (s : string) : string :=
  match s with
  | EmptyString => EmptyString
  | String c rest => if isWhitespace c then trimStart rest else s
  end.

Fixpoint trimEnd (s : string) : string :=
  match s with
  | EmptyString => EmptyString
  | String c rest =>
      match trimEnd rest with
      | EmptyString => if isWhitespace c then EmptyString else String c EmptyString
      | kept => String c kept
      end
  end.

Definition trim (s : string) : string := trimEnd (trimStart s).

Definition startsWithWhitespace (s : string) : bool :=
  match s with
  | EmptyString => false
  | String c _ => isWhitespace c
  end.

Fixpoint endsWithWhitespace (s : string) : bool :=
  match s with
  | EmptyString => false
  | String c EmptyString => isWhitespace c
  | String _ rest => endsWithWhitespace rest
  end.

Module Accessors.

(** [get text()] of [PompElement] (element.pomp.ts, lines 53-58). *)
Definition text (this : PompElement) : M string :=
  el <- fetch this None ;;
  value <- drv_getProperty (el_page this) el "textContent" ;;
  ret (trim value).

End Accessors.

(** Calls of the predicate recorded in a log. *)
Fixpoint invocations (l : list PollEvent) : nat :=
  match l with
  | [] => O
  | Invoked _ :: earlier => S (invocations earlier)
  | Settled _ :: earlier => invocations earlier
  end.

(** Instants at which the interval timer fires: whole multiples of the
    delay [every] after the start [t0]. *)
Definition onSchedule (every t0 t : Z) : Prop :=
  exists k : Z, 1 <= k /\ t = t0 + k * every.

(** Timing of every state the loop of [waitFor] goes through, when it was
    started at [t0] with delay [every] between attempts and deadline [D]. *)
Record PollTiming {A} (every t0 D : Z) (s : PollState A) : Prop := mkPollTiming {
  tm_trier : forall f : Z, trier s = Some f -> onSchedule every t0 f;
  tm_inflight : Forall (fun cr => t0 + every <= fst cr) (inflight s);
  tm_settled :
    forall (t : Z) (v : option A),
      settled s = Some (t, v) -> t0 + Z.min every D <= t;
  tm_log :
    Forall (fun e => match e with
                     | Invoked t => onSchedule every t0 t /\ t <= t0 + D
                     | Settled t => t0 + Z.min every D <= t
                     end) (plog s);
  tm_count :
    Z.of_nat (invocations (plog s))
    + match trier s, quitter s with
      | Some f, Some q => ticks every f q
      | _, _ => 0
      end
    <= D / every
}.

(** The error a settled evaluation was rejected with, if any. *)
Definition rejection {A} (p : Promise A) : option Error :=
  match p_outcome p with
  | Throw e => Some e
  | Ok _ => None
  end.

(** A second sample session: the text of node 1 is padded with white
    space, and the predicate [failsOnThird] throws on node 3. *)
Module Fixture.
Local Open Scope string_scope.
Local Open Scope Z_scope.

Definition paddedGetProperty (h : Handle) (name : string) : Reply string :=
  fun _ =>
    if String.eqb name "textContent" then
      match h with
      | 1%nat => (Ok (String (ascii_of_nat 10) "  Groceries  "), 1)
      | _ => (Ok "milk", 1)
      end
    else (Ok "", 1).

Definition paddedDriver : Driver :=
  mkDriver Sample.sampleXPath Sample.sampleSelectorAll
           Sample.sampleWaitForSelector paddedGetProperty.

Definition session : Page :=
  mkPage (Some (mkTimeoutSettings (Some 2000))) paddedDriver.

Definition root : PompPage := mkPompPage session.

Definition list_ : PompElement :=
  mkElement 200 None session (PageObject.dollar_x_fetcher root "//ul").

Definition failsOnThird (el : PompElement) : M bool :=
  h <- fetch el None ;;
  if Nat.eqb h 3 then throw (DriverError "node is detached") else ret false.

(** A pure verdict: the item is pinned to an even node. *)
Definition pinnedToEven (el : PompElement) : bool :=
  match fetch el None Sample.start with
  | (Ok h, _) => Nat.even h
  | (Throw _, _) => false
  end.
End Fixture.

(* ================================================================== *)
(** * Properties of the timeout defaults (waitFor.ts) *)
(* ================================================================== *)

Lemma effectiveTimeout_supplied (page : Page) (t : Z) :
  effectiveTimeout page (Some t)
  = if t =? 0 then effectiveTimeout page None else Ok t.
Proof.
  unfold effectiveTimeout, truthyNumber.
  destruct (t =? 0); reflexivity.
Qed.

Lemma effectiveTimeout_session (drv : Driver) (z : Z) :
  effectiveTimeout (mkPage (Some (mkTimeoutSettings (Some z))) drv) None
  = Ok (if z =? 0 then 10000 else z).
Proof.
  unfold effectiveTimeout, sessionTimeout, truthyNumber; simpl.
  destruct (z =? 0); reflexivity.
Qed.

Lemma effectiveInterval_default : effectiveInterval None = 500.
Proof. reflexivity. Qed.

Example message_of_lookup_timeout :
  message (newPompTimeoutError Sample.session "//missing" None)
  = ("waiting for selector " ++ dquote ++ "//missing" ++ dquote
     ++ " failed: timeout 2000ms exceeded")%string.
Proof. reflexivity. Qed.

Lemma errorTimeout_without_settings (drv : Driver) :
  errorTimeout (mkPage None drv) None = 10000.
Proof. reflexivity. Qed.

(** C2 (fails on the code).  When the caller passes no timeout and the
    session object has no [_timeoutSettings], [waitFor] does not fall back
    to 10000: reading [.timeout] of [undefined] throws a [TypeError] before
    any timer is created, whatever the predicate and the interval.  The
    constructor of [PompTimeoutError], which guards the same chain with
    [?.], does fall back to 10000 on the same session. *)
Theorem waitFor_without_timeout_settings_throws :
  forall (A : Type) (truthy : A -> bool) (drv : Driver) (predicate : M A)
         (interval : option Z) (w : World),
    waitFor truthy (mkPage None drv) predicate None interval w
    = (Throw (TypeError "Cannot read properties of undefined (reading 'timeout')"), w)
    /\ newPompTimeoutError (mkPage None drv) "li" None = PompTimeoutError "li" 10000.
Proof.
  intros. split; reflexivity.
Qed.

(* ================================================================== *)
(** * The event loop of waitFor: invariant and termination *)
(* ================================================================== *)

Lemma timerDelay_pos (d : Z) : 1 <= timerDelay d.
Proof.
  unfold timerDelay. destruct (d <? 1) eqn:E; simpl; [lia|].
  destruct (TIMEOUT_MAX <? d); lia.
Qed.

Lemma timerDelay_le (d : Z) : 1 <= d -> timerDelay d <= d.
Proof.
  intros H. unfold timerDelay.
  destruct (d <? 1) eqn:E; simpl; [lia|].
  destruct (TIMEOUT_MAX <? d); lia.
Qed.

Lemma orderedLog_no_call_after_settled :
  forall (later earlier : list PollEvent) (t : Z),
    orderedLog (later ++ Settled t :: earlier) = true ->
    forall u : Z, ~ In (Invoked u) later.
Proof.
  induction later as [|e later IH]; intros earlier t H u; [intros []|].
  destruct e as [u'|t']; simpl in H.
  - apply andb_true_iff in H as [H _].
    rewrite existsb_app in H. simpl in H.
    rewrite orb_true_r in H. discriminate.
  - intros [E|E]; [discriminate|]. exact (IH earlier t H u E).
Qed.

Lemma trierFirst_le {A} (s : PollState A) (f q : Z) :
  trierFirst s f q = true -> f <= q.
Proof.
  unfold trierFirst. intros H. apply orb_true_iff in H as [H|H].
  - apply Z.ltb_lt in H. lia.
  - apply andb_true_iff in H as [H _]. apply Z.eqb_eq in H. lia.
Qed.

Section PollerFacts.
Context {A : Type}.
Variable truthy : A -> bool.
Variable predicate : M A.
Variable every : Z.
Hypothesis every_pos : 1 <= every.
Variable Q : Z.
Variable P : Res A -> Prop.
Hypothesis P_predicate : forall w : World, P (fst (predicate w)).

Local Notation "'Inv'" := (PollInv truthy Q P).
Local Notation "'turn'" := (step truthy predicate every).

Lemma earliest_some (l : list (Z * Res A)) (x : Z * Res A)
  (rest : list (Z * Res A)) :
  earliest l = Some (x, rest) ->
  S (length rest) = length l
  /\ (Forall (fun cr => P (snd cr)) l ->
      P (snd x) /\ Forall (fun cr => P (snd cr)) rest).
Proof.
  revert x rest. induction l as [|y l IH]; intros x rest H; [discriminate|].
  simpl in H. destruct (earliest l) as [[z rest']|] eqn:E.
  - destruct (IH z rest' eq_refl) as [L F].
    destruct (fst y <=? fst z); injection H as <- <-.
    + split; [reflexivity|]. intros G. inversion G; subst. auto.
    + split; [simpl; now rewrite L|].
      intros G. inversion G as [|? ? Gy Gl]; subst.
      destruct (F Gl) as [Pz Fr]. auto.
  - injection H as <- <-. destruct l as [|y' l'].
    + split; [reflexivity|]. intros G. inversion G; subst. auto.
    + simpl in E. destruct (earliest l') as [[? ?]|];
        [destruct (fst y' <=? fst p)|]; discriminate.
Qed.

Lemma earliest_none (l : list (Z * Res A)) : earliest l = None -> l = [].
Proof.
  destruct l as [|y l]; [reflexivity|]. simpl.
  destruct (earliest l) as [[z rest']|]; [|discriminate].
  destruct (fst y <=? fst z); discriminate.
Qed.

(** Establish. *)
Lemma inv_start (deadline : Z) (w : World) :
  Q = now w + deadline -> Inv (pollStart every deadline w).
Proof.
  intros ->. constructor; simpl.
  - split; discriminate.
  - split; [discriminate|reflexivity].
  - intros q E. now injection E.
  - discriminate.
  - constructor.
  - reflexivity.
  - reflexivity.
Qed.

Lemma inv_resolve_cleared (t : Z) (v : option A) (s : PollState A) :
  Inv s ->
  (settled s = None ->
   t <= Q /\ match v with
             | Some a => truthy a = true /\ P (Ok a)
             | None => t = Q
             end) ->
  Inv (resolve t v (clearTimeout (clearInterval s))).
Proof.
  intros I Hv. destruct I as [I1 I2 I3 I4 I5 I6 I7].
  unfold resolve. simpl.
  destruct (settled s) as [[t0 v0]|] eqn:S.
  - constructor; simpl; try assumption.
    + tauto.
    + rewrite S. split; [discriminate|congruence].
    + discriminate.
    + rewrite S. exact I4.
    + rewrite S. discriminate.
  - constructor; simpl; try assumption.
    + tauto.
    + split; [discriminate|congruence].
    + discriminate.
    + intros t' v' E. injection E as <- <-. now apply Hv.
    + discriminate.
Qed.

(** Preserve. *)
Lemma inv_step (s : PollState A) : Inv s -> Inv (turn s).
Proof.
  intros I.
  assert (Fire : Inv (fireTimer predicate every s)).
  { pose proof I as [I1 I2 I3 I4 I5 I6 I7].
    unfold fireTimer.
    destruct (trier s) as [f|] eqn:Tr, (quitter s) as [q|] eqn:Qu.
    - assert (Su : settled s = None) by (apply I2; discriminate).
      destruct (trierFirst s f q) eqn:Le.
      + unfold onTrier.
        destruct (predicate (setNow f (ps_world s))) as [r w'] eqn:Pr.
        constructor; simpl.
        * rewrite Qu. split; discriminate.
        * rewrite Qu. exact I2.
        * rewrite Qu. exact I3.
        * exact I4.
        * apply Forall_app. split; [exact I5|].
          constructor; [|constructor]. simpl.
          pose proof (P_predicate (setNow f (ps_world s))) as Pp.
          now rewrite Pr in Pp.
        * rewrite (I7 Su). simpl. exact I6.
        * intros _. simpl. apply (I7 Su).
      + unfold onQuitter.
        replace (clearInterval (expireQuitter s))
          with (clearTimeout (clearInterval s)) by reflexivity.
        apply inv_resolve_cleared; [exact I|].
        intros _. rewrite (I3 q eq_refl). split; [lia|reflexivity].
    - discriminate (proj2 I1 eq_refl).
    - discriminate (proj1 I1 eq_refl).
    - exact I. }
  unfold step.
  destruct (earliest (inflight s)) as [[[c r] rest]|] eqn:E; [|exact Fire].
  destruct (notAfter c (trier s) && notAfter c (quitter s)) eqn:Due;
    [|exact Fire].
  pose proof I as [I1 I2 I3 I4 I5 I6 I7].
  destruct (earliest_some _ _ _ E) as [_ F]. destruct (F I5) as [Pr Fr].
  assert (I' : Inv (setInflight rest s)) by (constructor; assumption).
  unfold onCompletion. destruct r as [a|e]; [|exact I'].
  destruct (truthy a) eqn:Ta; [|exact I'].
  apply inv_resolve_cleared; [exact I'|].
  simpl. intros Su. split; [|split; assumption].
  apply andb_true_iff in Due as [_ Dq].
  destruct (quitter s) as [q|] eqn:Qu.
  - simpl in Dq. rewrite <- (I3 q eq_refl). lia.
  - apply I2 in Su. congruence.
Qed.

Lemma inv_steps (n : nat) (s : PollState A) :
  Inv s -> Inv (pollSteps truthy predicate every n s).
Proof.
  intros I. induction n as [|n IH]; simpl; [exact I|].
  apply inv_step. exact IH.
Qed.

(** Use. *)
Lemma inv_timers_cleared (s : PollState A) :
  Inv s -> settled s <> None -> trier s = None /\ quitter s = None.
Proof.
  intros [I1 I2 I3 I4 I5 I6 I7] S.
  assert (Qn : quitter s = None).
  { destruct (quitter s) eqn:Qu; [|reflexivity].
    exfalso. apply S. apply I2. discriminate. }
  split; [apply I1; exact Qn|exact Qn].
Qed.

Lemma inv_quiescent_settled (s : PollState A) :
  Inv s -> quiescent s = true -> settled s <> None.
Proof.
  intros [I1 I2 I3 I4 I5 I6 I7] Hq S.
  apply I2 in S. unfold quiescent in Hq.
  destruct (trier s), (quitter s); try discriminate. now apply S.
Qed.

Lemma step_quiescent (s : PollState A) : quiescent s = true -> turn s = s.
Proof.
  unfold quiescent, step, fireTimer.
  destruct (trier s), (quitter s), (inflight s); try discriminate.
  reflexivity.
Qed.

Lemma ticks_nonneg (f q : Z) : 0 <= ticks every f q.
Proof.
  unfold ticks. destruct (f <=? q) eqn:Le; [|lia].
  apply Z.leb_le in Le.
  assert (0 <= (q - f) / every) by (apply Z.div_pos; lia). lia.
Qed.

Lemma ticks_fire (f q : Z) :
  f <= q -> ticks every (f + every) q + 1 <= ticks every f q.
Proof.
  intros Le. unfold ticks.
  replace (f <=? q) with true by (symmetry; apply Z.leb_le; lia).
  destruct (f + every <=? q) eqn:Le'.
  - replace (q - (f + every)) with (q - f + (-1) * every) by lia.
    rewrite Z.div_add by lia. lia.
  - assert (0 <= (q - f) / every) by (apply Z.div_pos; lia). lia.
Qed.

Lemma potential_nonneg (s : PollState A) : 0 <= potential every s.
Proof.
  unfold potential.
  destruct (trier s) as [f|], (quitter s) as [q|];
    try pose proof (ticks_nonneg f q); lia.
Qed.

Lemma potential_zero (s : PollState A) :
  Inv s -> potential every s <= 0 -> quiescent s = true.
Proof.
  intros I. unfold potential, quiescent.
  destruct (trier s) as [f|], (quitter s) as [q|];
    try pose proof (ticks_nonneg f q); try lia.
  destruct (inflight s); simpl; [reflexivity|lia].
Qed.

Lemma potential_step (s : PollState A) :
  Inv s -> quiescent s = false ->
  potential every (turn s) + 1 <= potential every s.
Proof.
  intros I Hq.
  pose proof I as [I1 I2 I3 I4 I5 I6 I7].
  assert (Fire : (inflight s = [] \/
                  exists c : Z,
                    notAfter c (trier s) && notAfter c (quitter s) = false) ->
                 potential every (fireTimer predicate every s) + 1
                 <= potential every s).
  { intros Why. unfold fireTimer, potential.
    destruct (trier s) as [f|] eqn:Tr, (quitter s) as [q|] eqn:Qu.
    - destruct (trierFirst s f q) eqn:Le.
      + apply trierFirst_le in Le. unfold onTrier.
        destruct (predicate (setNow f (ps_world s))) as [r w'].
        cbn [inflight trier quitter]. rewrite Qu, length_app.
        cbn [length]. pose proof (ticks_fire f q Le). lia.
      + unfold onQuitter, resolve, clearInterval, expireQuitter.
        cbn [inflight trier quitter settled].
        pose proof (ticks_nonneg f q).
        destruct (settled s); cbn [inflight trier quitter]; lia.
    - discriminate (proj2 I1 eq_refl).
    - discriminate (proj1 I1 eq_refl).
    - destruct Why as [Em|[c Due]]; [|discriminate].
      unfold quiescent in Hq. rewrite Tr, Qu, Em in Hq. discriminate. }
  unfold step.
  destruct (earliest (inflight s)) as [[[c r] rest]|] eqn:E.
  - destruct (notAfter c (trier s) && notAfter c (quitter s)) eqn:Due.
    + destruct (earliest_some _ _ _ E) as [L _].
      assert (Base : potential every (setInflight rest s) + 1
                     = potential every s).
      { unfold potential, setInflight. cbn [inflight trier quitter].
        rewrite <- L. lia. }
      unfold onCompletion. destruct r as [a|e]; [|lia].
      destruct (truthy a); [|lia].
      rewrite <- Base.
      unfold potential, resolve, clearTimeout, clearInterval, setInflight.
      cbn [inflight trier quitter settled].
      destruct (settled s); cbn [inflight trier quitter];
        destruct (trier s) as [f|], (quitter s) as [q|];
        try pose proof (ticks_nonneg f q); lia.
    + apply Fire. right. exists c. exact Due.
  - apply Fire. left. now apply earliest_none.
Qed.

Lemma steps_reach_quiescence :
  forall (n : nat) (s : PollState A),
    Inv s -> potential every s <= Z.of_nat n ->
    quiescent (pollSteps truthy predicate every n s) = true.
Proof.
  induction n as [|n IH]; intros s I Hp.
  - simpl. apply potential_zero; [exact I|lia].
  - unfold pollSteps. rewrite Nat.iter_succ_r.
    destruct (quiescent s) eqn:Hq.
    + rewrite (step_quiescent s Hq). apply IH; [exact I|].
      pose proof (potential_nonneg s).
      assert (potential every s <= 0); [|lia].
      unfold potential, quiescent in *.
      destruct (trier s), (quitter s), (inflight s);
        discriminate || (simpl; lia).
    + apply IH; [apply inv_step; exact I|].
      pose proof (potential_step s I Hq). lia.
Qed.

Lemma potential_start (deadline : Z) (w : World) :
  1 <= deadline ->
  potential every (@pollStart A every deadline w)
  <= Z.of_nat (pollFuel every deadline).
Proof.
  intros Hd. unfold potential, pollStart, pollFuel, ticks.
  cbn [inflight trier quitter length].
  assert (0 <= deadline / every) by (apply Z.div_pos; lia).
  rewrite Z2Nat.id by lia.
  destruct (now w + every <=? now w + deadline) eqn:Le; [|lia].
  replace (now w + deadline - (now w + every))
    with (deadline + (-1) * every) by lia.
  rewrite Z.div_add by lia. lia.
Qed.

(** The loop of [waitFor] always runs to quiescence within its fuel, and
    every state on the way satisfies the invariant. *)
Lemma pollRun_settles (deadline : Z) (w : World) :
  1 <= deadline -> Q = now w + deadline ->
  Inv (pollRun truthy predicate every deadline w)
  /\ quiescent (pollRun truthy predicate every deadline w) = true
  /\ exists (t : Z) (v : option A),
       settled (pollRun truthy predicate every deadline w) = Some (t, v).
Proof.
  intros Hd HQ.
  pose proof (inv_start deadline w HQ) as I0.
  assert (I : Inv (pollRun truthy predicate every deadline w))
    by (apply inv_steps; exact I0).
  assert (Hq : quiescent (pollRun truthy predicate every deadline w) = true).
  { apply steps_reach_quiescence; [exact I0|].
    apply potential_start; exact Hd. }
  split; [exact I|]. split; [exact Hq|].
  pose proof (inv_quiescent_settled _ I Hq) as S.
  destruct (settled (pollRun truthy predicate every deadline w))
    as [[t v]|]; [|congruence].
  exists t, v. reflexivity.
Qed.
End PollerFacts.

(** C10 (fails on the code).  A supplied timeout of 0 is not honoured: it
    is treated as an absent one.  On a session object whose timeout
    settings can be read, the loop then runs with the session's default as
    its deadline, or with 10000 ms when that default is 0: the promise is
    resolved with a truthy value of the predicate no later than that
    deadline, or with [null] exactly at it, and the call behaves as the one
    without timeout.  But on a session object without [_timeoutSettings]
    the 0 is not replaced by 10000: the call throws a [TypeError] before
    any timer is created. *)
Theorem zero_timeout_falls_back_or_throws :
  forall (A : Type) (truthy : A -> bool) (drv : Driver) (predicate : M A)
         (interval : option Z) (w : World),
    waitFor truthy (mkPage None drv) predicate (Some 0) interval w
    = (Throw (TypeError "Cannot read properties of undefined (reading 'timeout')"),
       w)
    /\ forall z : Z,
         let page := mkPage (Some (mkTimeoutSettings (Some z))) drv in
         let T := if z =? 0 then 10000 else z in
         let final := pollRun truthy predicate
                        (timerDelay (effectiveInterval interval))
                        (timerDelay T) w in
         effectiveTimeout page (Some 0) = Ok T
         /\ waitFor truthy page predicate (Some 0) interval w
            = waitFor truthy page predicate None interval w
         /\ exists (t : Z) (v : option A),
              settled final = Some (t, v)
              /\ waitFor truthy page predicate (Some 0) interval w
                 = (Ok v, setNow t (ps_world final))
              /\ match v with
                 | Some a => truthy a = true /\ t <= now w + timerDelay T
                 | None => t = now w + timerDelay T
                 end.
Proof.
  intros A truthy drv predicate interval w. split; [reflexivity|].
  intros z page T final.
  assert (ET : effectiveTimeout page (Some 0) = Ok T).
  { unfold page, T. rewrite effectiveTimeout_supplied, Z.eqb_refl.
    exact (effectiveTimeout_session drv z). }
  assert (E0 : effectiveTimeout page (Some 0) = effectiveTimeout page None).
  { rewrite effectiveTimeout_supplied. reflexivity. }
  split; [exact ET|]. split.
  { unfold waitFor. rewrite E0. reflexivity. }
  destruct (pollRun_settles truthy predicate
              (timerDelay (effectiveInterval interval)) (timerDelay_pos _)
              (now w + timerDelay T) (fun _ => True) (fun _ => I)
              (timerDelay T) w (timerDelay_pos _) eq_refl)
    as (Inv & _ & t & v & S).
  fold final in Inv, S.
  exists t, v. split; [exact S|]. split.
  - unfold waitFor. rewrite ET. cbv zeta. fold final. rewrite S. reflexivity.
  - destruct (inv_value _ _ _ _ Inv t v S) as [Ht Hv].
    destruct v as [a|]; [|exact Hv]. split; [exact (proj1 Hv)|exact Ht].
Qed.

Example zero_timeout_on_the_sample_session :
  waitFor truthyFirst Sample.session
    (Element.firstMatch Sample.session Document "//missing") (Some 0) None
    Sample.start
  = (Ok None,
     mkWorld 2000 0
       [(500, QXPath Document "//missing"); (1000, QXPath Document "//missing");
        (1500, QXPath Document "//missing")] []).
Proof. reflexivity. Qed.

(* ================================================================== *)
(** * Properties of the poller *)
(* ================================================================== *)

Lemma waitFor_settles {A} (truthy : A -> bool) (page : Page) (predicate : M A)
  (P : Res A -> Prop) (timeout interval : option Z) (T : Z) (w : World) :
  effectiveTimeout page timeout = Ok T ->
  (forall w0 : World, P (fst (predicate w0))) ->
  exists (t : Z) (v : option A) (w' : World),
    waitFor truthy page predicate timeout interval w = (Ok v, setNow t w')
    /\ t <= now w + timerDelay T
    /\ match v with
       | Some a => truthy a = true /\ P (Ok a)
       | None => t = now w + timerDelay T
       end.
Proof.
  intros ET HP.
  destruct (pollRun_settles truthy predicate
              (timerDelay (effectiveInterval interval))
              (timerDelay_pos _) (now w + timerDelay T) P HP
              (timerDelay T) w (timerDelay_pos _) eq_refl)
    as (I & _ & t & v & S).
  exists t, v. eexists.
  unfold waitFor. rewrite ET. cbv zeta. rewrite S.
  split; [reflexivity|].
  exact (inv_value _ _ _ _ I t v S).
Qed.

Lemma waitFor_never_truthy {A} (truthy : A -> bool) (page : Page)
  (predicate : M A) (timeout interval : option Z) (T : Z) (w : World) :
  effectiveTimeout page timeout = Ok T ->
  (forall (w0 : World) (a : A), fst (predicate w0) = Ok a -> truthy a = false) ->
  exists w' : World,
    waitFor truthy page predicate timeout interval w
    = (Ok None, setNow (now w + timerDelay T) w').
Proof.
  intros ET Never.
  destruct (waitFor_settles truthy page predicate
              (fun r => forall a, r = Ok a -> truthy a = false)
              timeout interval T w ET Never)
    as (t & v & w' & E & _ & V).
  destruct v as [a|].
  - destruct V as [Ta Fa]. rewrite (Fa a eq_refl) in Ta. discriminate.
  - subst t. exists w'. exact E.
Qed.



Example late_node_is_found :
  waitFor truthyFirst Sample.session
    (Element.firstMatch Sample.session Document "//late") (Some 2000) (Some 500)
    Sample.start
  = (Ok (Some (Some 7%nat)),
     mkWorld 1502 0
       [(500, QXPath Document "//late"); (1000, QXPath Document "//late");
        (1500, QXPath Document "//late")] []).
Proof. reflexivity. Qed.

(* ================================================================== *)
(** * Properties of PompElement *)
(* ================================================================== *)

(** C3.  [exists] never throws: it returns [true] when [fetch] resolves and
    [false] when [fetch] throws, whatever the error. *)
Theorem exists_never_throws :
  forall (this : PompElement) (timeout : Z) (w : World),
    Element.exists_ this timeout w
    = match fetch this (Some timeout) w with
      | (Ok _, w') => (Ok true, w')
      | (Throw _, w') => (Ok false, w')
      end
    /\ exists (b : bool) (w' : World),
         Element.exists_ this timeout w = (Ok b, w').
Proof.
  intros this timeout w.
  unfold Element.exists_, try_catch, bind, ret.
  destruct (fetch this (Some timeout) w) as [[h|e] w']; simpl.
  - split; [reflexivity|]. exists true, w'. reflexivity.
  - split; [reflexivity|]. exists false, w'. reflexivity.
Qed.

Lemma split_not_nil (sep : ascii) (s : string) : split sep s <> [].
Proof.
  destruct s as [|c rest]; simpl; [discriminate|].
  destruct (Ascii.eqb c sep); [discriminate|].
  destruct (split sep rest); discriminate.
Qed.

Lemma join_cons (sep tok : string) (toks : list string) :
  toks <> [] ->
  join sep (tok :: toks) = (tok ++ sep ++ join sep toks)%string.
Proof.
  destruct toks as [|t r]; [congruence|reflexivity].
Qed.

Lemma join_split (sep : ascii) (s : string) :
  join (String sep EmptyString) (split sep s) = s.
Proof.
  induction s as [|c rest IH]; simpl; [reflexivity|].
  destruct (Ascii.eqb c sep) eqn:E.
  - apply Ascii.eqb_eq in E; subst c.
    rewrite join_cons by apply split_not_nil.
    simpl. now rewrite IH.
  - destruct (split sep rest) as [|tok toks] eqn:S.
    + now destruct (split_not_nil sep rest).
    + destruct toks as [|t r]; simpl in *; now rewrite <- IH.
Qed.

Lemma split_tokens_without_sep (sep : ascii) (s : string) :
  Forall (fun tok => containsChar (fun c => Ascii.eqb c sep) tok = false)
         (split sep s).
Proof.
  induction s as [|c rest IH]; simpl.
  - constructor; [reflexivity|constructor].
  - destruct (Ascii.eqb c sep) eqn:E.
    + constructor; [reflexivity|exact IH].
    + destruct (split sep rest) as [|tok toks].
      * constructor; [simpl; now rewrite E|constructor].
      * inversion IH as [|? ? Htok Htoks]; subst.
        constructor; [simpl; now rewrite E, Htok|exact Htoks].
Qed.

Lemma length_split (sep : ascii) (s : string) :
  length (split sep s) = S (countChar sep s).
Proof.
  induction s as [|c rest IH]; simpl; [reflexivity|].
  destruct (Ascii.eqb c sep).
  - simpl. now rewrite IH.
  - destruct (split sep rest) as [|tok toks]; simpl in *; [discriminate|exact IH].
Qed.

(** What [classes] computes: [className.split(" ")], the className cut at
    every single space character. *)
Lemma classes_splits_at_each_space :
  forall (this : PompElement) (w w1 : World) (h : Handle) (s : string) (d : Z),
    fetch this None w = (Ok h, w1) ->
    getProperty (driver (el_page this)) h "className" (now w1) = (Ok s, d) ->
    exists w2 : World,
      Element.classes this w = (Ok (split space s), w2)
      /\ join " " (split space s) = s
      /\ Forall (fun tok => containsChar (fun c => Ascii.eqb c space) tok = false)
                (split space s)
      /\ length (split space s) = S (countChar space s).
Proof.
  intros this w w1 h s d Hfetch Hprop.
  unfold Element.classes, bind, drv_getProperty, ask, ret.
  rewrite Hfetch, Hprop.
  eexists. split; [reflexivity|].
  split; [apply join_split|].
  split; [apply split_tokens_without_sep|apply length_split].
Qed.

Lemma split_doubled_separator (sep : ascii) (b : string) :
  forall a : string,
    In EmptyString
       (tl (split sep (a ++ String sep (String sep b))%string)).
Proof.
  induction a as [|c a IH].
  - simpl. rewrite Ascii.eqb_refl. simpl. now left.
  - simpl. destruct (Ascii.eqb c sep).
    + simpl.
      destruct (split sep (a ++ String sep (String sep b))%string) as [|tok toks];
        [destruct IH|]. now right.
    + destruct (split sep (a ++ String sep (String sep b))%string) as [|tok toks];
        [destruct IH|]. exact IH.
Qed.

(** C4 (fails on the code).  [classes] is documented to return the list of
    the element's classes, and cuts the className at every single space
    character.  A className with two spaces in a row therefore gives an
    empty token, which is no class: ["list  wide"] gives
    [["list"; ""; "wide"]], and the empty className gives [[""]] instead of
    no class at all. *)
Theorem classes_keeps_empty_tokens :
  forall (this : PompElement) (w w1 : World) (h : Handle) (s : string) (d : Z),
    fetch this None w = (Ok h, w1) ->
    getProperty (driver (el_page this)) h "className" (now w1) = (Ok s, d) ->
    exists (toks : list string) (w2 : World),
      Element.classes this w = (Ok toks, w2)
      /\ (forall a b : string, s = (a ++ "  " ++ b)%string -> In EmptyString toks)
      /\ (s = EmptyString -> toks = [EmptyString])
      /\ (s = "list  wide"%string -> toks = ["list"; ""; "wide"]%string).
Proof.
  intros this w w1 h s d Hfetch Hprop.
  exists (split space s). eexists. split.
  { unfold Element.classes, bind, drv_getProperty, ask, ret.
    rewrite Hfetch, Hprop. reflexivity. }
  split; [|split].
  - intros a b ->.
    pose proof (split_doubled_separator space b a) as H.
    change (" " ++ " " ++ b)%string with (String space (String space b)).
    change ("  " ++ b)%string with (String space (String space b)).
    destruct (split space (a ++ String space (String space b))%string);
      [destruct H|]. now right.
  - intros ->. reflexivity.
  - intros ->. reflexivity.
Qed.

Lemma classes_keeps_empty_tokens_witness :
  exists (toks : list string) (w2 : World),
    Element.classes Sample.list_ Sample.start = (Ok toks, w2)
    /\ In EmptyString toks
    /\ toks = ["list"; ""; "wide"]%string.
Proof.
  destruct (classes_keeps_empty_tokens Sample.list_ Sample.start
              (mkWorld 502 0 [(500, QXPath Document "//ul")] []) 1%nat
              "list  wide" 1 eq_refl eq_refl)
    as (toks & w2 & E & Hdouble & _ & Hexact).
  exists toks, w2. split; [exact E|]. split.
  - exact (Hdouble "list"%string "wide"%string eq_refl).
  - exact (Hexact eq_refl).
Defined.

(** The tokens [classes] returns are not always non-empty and free of
    white space. *)
Lemma classes_returns_empty_token :
  ~ (forall (this : PompElement) (w w' : World) (toks : list string),
       Element.classes this w = (Ok toks, w') ->
       Forall (fun tok => tok <> EmptyString
                          /\ containsChar isWhitespace tok = false) toks).
Proof.
  intros H.
  specialize (H Sample.list_ Sample.start
                (mkWorld 503 0 [(500, QXPath Document "//ul");
                                (502, QGetProperty 1%nat "className")] [])
                ["list"; ""; "wide"]%string eq_refl).
  inversion H as [|? ? _ H1]; subst.
  inversion H1 as [|? ? [H2 _] _]; subst.
  now apply H2.
Qed.

(* ================================================================== *)
(** * Properties of the locators *)
(* ================================================================== *)

Lemma errorTimeout_effective (page : Page) (timeout : option Z) (T : Z) :
  effectiveTimeout page timeout = Ok T -> errorTimeout page timeout = T.
Proof.
  unfold effectiveTimeout, errorTimeout, sessionTimeout, sessionTimeoutOptional.
  destruct timeout as [t|].
  - destruct (truthyNumber (Some t)); [congruence|].
    destruct (_timeoutSettings page) as [[[z|]]|]; cbn [ts_timeout];
      try discriminate.
    destruct (truthyNumber (Some z)); congruence.
  - destruct (_timeoutSettings page) as [[[z|]]|]; cbn [ts_timeout];
      try discriminate.
    destruct (truthyNumber (Some z)); congruence.
Qed.

Lemma firstMatch_never (page : Page) (sc : Scope) (selector : string) :
  (forall t : Z, fst (xpath (driver page) sc selector t) = Ok []) ->
  forall (w : World) (a : option Handle),
    fst (Element.firstMatch page sc selector w) = Ok a -> truthyFirst a = false.
Proof.
  intros Never w a.
  unfold Element.firstMatch, bind, drv_xpath, ask.
  specialize (Never (now w)).
  destruct (xpath (driver page) sc selector (now w)) as [r d].
  simpl in Never. subst r. simpl. intros E. injection E as <-. reflexivity.
Qed.

(** The single path-expression locator of a page fails with the lookup
    timeout error when nothing ever matches. *)
Lemma page_dollar_x_never_matches (page : Page) (selector : string)
  (timeout : option Z) (T : Z) (w : World) :
  effectiveTimeout page timeout = Ok T ->
  (forall t : Z, fst (xpath (driver page) Document selector t) = Ok []) ->
  exists w' : World,
    PageObject.dollar_x_fetcher (mkPompPage page) selector timeout w
    = (Throw (PompTimeoutError selector T), w').
Proof.
  intros ET Never.
  destruct (waitFor_never_truthy truthyFirst page
              (Element.firstMatch page Document selector) timeout None T w ET
              (firstMatch_never page Document selector Never)) as [w' E].
  eexists. unfold PageObject.dollar_x_fetcher, bind. simpl pg_page.
  rewrite E. cbv beta iota. unfold throw, newPompTimeoutError.
  simpl pg_page.
  rewrite (errorTimeout_effective page timeout T ET). reflexivity.
Qed.

(** The css collection locators tolerate a failed wait: when the driver's
    [waitForSelector] throws and then no node matches, the fetch resolves
    with the empty collection. *)
Lemma css_collection_tolerates_wait_timeout (page : Page) (selector : string)
  (Type_ : option string) (timeout : option Z) (w : World) (e : Error) (d1 d2 : Z) :
  waitForSelector (driver page) Document selector timeout (now w) = (Throw e, d1) ->
  querySelectorAll (driver page) Document selector (now w + Z.max 0 d1)
  = (Ok [], d2) ->
  exists w' : World,
    c_fetch (PageObject.dollar_dollar (mkPompPage page) selector Type_) timeout w
    = (Ok [], w').
Proof.
  intros Hw Hq. eexists.
  unfold PageObject.dollar_dollar, Collection.new, c_fetch,
    PageObject.dollar_dollar_fetcher, bind, try_catch, drv_waitForSelector,
    drv_querySelectorAll, ask, ret.
  simpl pg_page. rewrite Hw. simpl. rewrite Hq. reflexivity.
Qed.

Lemma css_collection_of_element_tolerates_wait_timeout (this : PompElement)
  (selector : string) (Type_ : option string) (timeout : option Z)
  (w w1 : World) (self : Handle) (e : Error) (d1 d2 : Z) :
  fetch this None w = (Ok self, w1) ->
  waitForSelector (driver (el_page this)) (Within self) selector timeout (now w1)
  = (Throw e, d1) ->
  querySelectorAll (driver (el_page this)) (Within self) selector
                   (now w1 + Z.max 0 d1)
  = (Ok [], d2) ->
  exists w' : World,
    c_fetch (Element.dollar_dollar this selector Type_) timeout w = (Ok [], w').
Proof.
  intros Hf Hw Hq. eexists.
  unfold Element.dollar_dollar, Collection.new, c_fetch,
    Element.dollar_dollar_fetcher, bind, try_catch, drv_waitForSelector,
    drv_querySelectorAll, ask, ret.
  rewrite Hf, Hw. simpl. rewrite Hq. reflexivity.
Qed.

(** C1 (fails on the code).  When no node ever matches the selector, the
    path-expression collection locators [$$x] of a page and of an element
    do not fail: after the wait they resolve with the empty collection,
    like the css ones.  The test [if (!el)] that guards the
    [PompTimeoutError] looks at the promise of the query, which is always
    truthy.  The single locator [$x] of the page does throw the lookup
    timeout error on the same input. *)
Theorem xpath_collection_with_no_match_resolves_empty :
  forall (page : Page) (selector : string) (Type_ : option string)
         (timeout : option Z) (T : Z),
    effectiveTimeout page timeout = Ok T ->
    (forall w : World,
        (forall t : Z, fst (xpath (driver page) Document selector t) = Ok []) ->
        (exists w' : World,
            c_fetch (PageObject.dollar_dollar_x (mkPompPage page) selector Type_)
                    timeout w
            = (Ok [], w'))
        /\ (exists w' : World,
               PageObject.dollar_x_fetcher (mkPompPage page) selector timeout w
               = (Throw (PompTimeoutError selector T), w')))
    /\ (forall (this : PompElement) (w w1 : World) (self : Handle),
           el_page this = page ->
           fetch this None w = (Ok self, w1) ->
           (forall t : Z,
               fst (xpath (driver page) (Within self) selector t) = Ok []) ->
           exists w' : World,
             c_fetch (Element.dollar_dollar_x this selector Type_) timeout w
             = (Ok [], w')).
Proof.
  intros page selector Type_ timeout T ET. split.
  - intros w Never. split.
    + destruct (waitFor_never_truthy truthyFirst page
                  (Element.firstMatch page Document selector) timeout None T w ET
                  (firstMatch_never page Document selector Never)) as [w' E].
      pose proof (Never (now (setNow (now w + timerDelay T) w'))) as N.
      destruct (xpath (driver page) Document selector
                  (now (setNow (now w + timerDelay T) w'))) as [r d] eqn:X.
      simpl in N. subst r. eexists.
      unfold PageObject.dollar_dollar_x, Collection.new, c_fetch,
        PageObject.dollar_dollar_x_fetcher, bind.
      simpl pg_page. rewrite E.
      unfold spawn, drv_xpath, ask. rewrite X. reflexivity.
    + exact (page_dollar_x_never_matches page selector timeout T w ET Never).
  - intros this w w1 self Hpage Hfetch Never.
    destruct (waitFor_never_truthy truthyFirst page
                (Element.firstMatch page (Within self) selector) timeout None T w1
                ET (firstMatch_never page (Within self) selector Never))
      as [w' E].
    pose proof (Never (now (setNow (now w1 + timerDelay T) w'))) as N.
    destruct (xpath (driver page) (Within self) selector
                (now (setNow (now w1 + timerDelay T) w'))) as [r d] eqn:X.
    simpl in N. subst r. eexists.
    unfold Element.dollar_dollar_x, Collection.new, c_fetch,
      Element.dollar_dollar_x_fetcher, bind.
    rewrite Hfetch, Hpage, E.
    unfold spawn, drv_xpath, ask. rewrite X. reflexivity.
Qed.

Lemma xpath_collection_with_no_match_resolves_empty_witness :
  (exists w' : World,
      c_fetch (PageObject.dollar_dollar_x Sample.root "//missing" None) None
              Sample.start
      = (Ok [], w'))
  /\ (exists w' : World,
         PageObject.dollar_x_fetcher Sample.root "//missing" None Sample.start
         = (Throw (PompTimeoutError "//missing" 2000), w'))
  /\ (exists w' : World,
         c_fetch (Element.dollar_dollar_x Sample.list_ ".//missing" None) None
                 Sample.start
         = (Ok [], w')).
Proof.
  destruct (xpath_collection_with_no_match_resolves_empty Sample.session
              "//missing" None None 2000 eq_refl) as [Hp _].
  destruct (xpath_collection_with_no_match_resolves_empty Sample.session
              ".//missing" None None 2000 eq_refl) as [_ He].
  split; [|split].
  - apply (Hp Sample.start). intros t. reflexivity.
  - apply (Hp Sample.start). intros t. reflexivity.
  - apply (He Sample.list_ Sample.start
             (mkWorld 502 0 [(500, QXPath Document "//ul")] []) 1%nat);
      try reflexivity.
Defined.

Example xpath_collection_on_missing_nodes :
  c_fetch (PageObject.dollar_dollar_x Sample.root "//missing" None) None
          Sample.start
  = (Ok [],
     mkWorld 2002 0
       [(500, QXPath Document "//missing"); (1000, QXPath Document "//missing");
        (1500, QXPath Document "//missing"); (2000, QXPath Document "//missing")]
       []).
Proof. reflexivity. Qed.

Lemma child_fetchers_propagate (parent : PompElement) (e : Error)
  (w w' : World) :
  fetch parent None w = (Throw e, w') ->
  forall (selector : string) (Type_ : option string) (timeout : option Z),
    Element.dollar_x_fetcher parent selector timeout w = (Throw e, w')
    /\ Element.dollar_fetcher parent selector timeout w = (Throw e, w')
    /\ c_fetch (Element.dollar_dollar_x parent selector Type_) timeout w
       = (Throw e, w')
    /\ c_fetch (Element.dollar_dollar parent selector Type_) timeout w
       = (Throw e, w').
Proof.
  intros Hfail selector Type_ timeout. split; [|split; [|split]].
  - unfold Element.dollar_x_fetcher, bind. now rewrite Hfail.
  - unfold Element.dollar_fetcher, bind. now rewrite Hfail.
  - unfold Element.dollar_dollar_x, Collection.new, c_fetch,
      Element.dollar_dollar_x_fetcher, bind. now rewrite Hfail.
  - unfold Element.dollar_dollar, Collection.new, c_fetch,
      Element.dollar_dollar_fetcher, bind. now rewrite Hfail.
Qed.

Lemma single_child_propagates (parent child : PompElement) (e : Error)
  (w w' : World) (selector : string) (Type_ : option string) (wa wa' : World) :
  fetch parent None w = (Throw e, w') ->
  Element.dollar_x parent selector Type_ wa = (Ok child, wa')
  \/ Element.dollar parent selector Type_ wa = (Ok child, wa') ->
  forall timeout : option Z, fetch child timeout w = (Throw e, w').
Proof.
  intros Hfail Hnew timeout.
  destruct (child_fetchers_propagate parent e w w' Hfail selector Type_ timeout)
    as (Hx & Hcss & _).
  destruct Hnew as [Hnew|Hnew];
    unfold Element.dollar_x, Element.dollar, newElement, bind, fresh, ret in Hnew;
    injection Hnew as <- _; simpl; assumption.
Qed.

(** C5.  A locator created on a parent element resolves the parent first:
    each of the four fetchers is the parent's [fetch] followed by the
    child's own work.  Hence when the parent's [fetch] throws, the fetch of
    every child locator (single or collection, css or path expression), and
    of every locator created on a single child, throws the same error and
    leaves the world exactly as the parent's [fetch] left it: neither the
    child nor the grandchild issues a query of its own. *)
Theorem child_fetch_fails_with_parent_error :
  forall (parent : PompElement) (e : Error) (w w' : World),
    fetch parent None w = (Throw e, w') ->
    (forall (selector : string) (Type_ : option string) (timeout : option Z),
        Element.dollar_x_fetcher parent selector timeout w = (Throw e, w')
        /\ Element.dollar_fetcher parent selector timeout w = (Throw e, w')
        /\ c_fetch (Element.dollar_dollar_x parent selector Type_) timeout w
           = (Throw e, w')
        /\ c_fetch (Element.dollar_dollar parent selector Type_) timeout w
           = (Throw e, w'))
    /\ (forall (selB selC : string) (TypeB TypeC : option string)
               (B C : PompElement) (wb wb' wc wc' : World),
           Element.dollar_x parent selB TypeB wb = (Ok B, wb')
           \/ Element.dollar parent selB TypeB wb = (Ok B, wb') ->
           Element.dollar_x B selC TypeC wc = (Ok C, wc')
           \/ Element.dollar B selC TypeC wc = (Ok C, wc') ->
           forall timeout : option Z,
             fetch B timeout w = (Throw e, w')
             /\ fetch C timeout w = (Throw e, w')
             /\ c_fetch (Element.dollar_dollar_x B selC TypeC) timeout w
                = (Throw e, w')
             /\ c_fetch (Element.dollar_dollar B selC TypeC) timeout w
                = (Throw e, w'))
    /\ (forall selector : string,
           (exists k, Element.dollar_x_fetcher parent selector
                      = fun timeout => bind (fetch parent None) (k timeout))
           /\ (exists k, Element.dollar_fetcher parent selector
                         = fun timeout => bind (fetch parent None) (k timeout))
           /\ (exists k, Element.dollar_dollar_x_fetcher parent selector
                         = fun timeout => bind (fetch parent None) (k timeout))
           /\ (exists k, Element.dollar_dollar_fetcher parent selector
                         = fun timeout => bind (fetch parent None) (k timeout))).
Proof.
  intros parent e w w' Hfail.
  split; [|split].
  - exact (child_fetchers_propagate parent e w w' Hfail).
  - intros selB selC TypeB TypeC B C wb wb' wc wc' HB HC timeout.
    pose proof (single_child_propagates parent B e w w' selB TypeB wb wb'
                  Hfail HB) as FB.
    pose proof (single_child_propagates B C e w w' selC TypeC wc wc'
                  (FB None) HC) as FC.
    destruct (child_fetchers_propagate B e w w' (FB None) selC TypeC timeout)
      as (_ & _ & Hxs & Hcs).
    split; [apply FB|]. split; [apply FC|]. split; assumption.
  - intros selector. repeat split; eexists; reflexivity.
Qed.

Lemma child_fetch_fails_with_parent_error_witness :
  fetch Sample.missingChild (Some 100) Sample.start
  = (Throw (PompTimeoutError "//missing" 2000),
     mkWorld 2000 0
       [(500, QXPath Document "//missing"); (1000, QXPath Document "//missing");
        (1500, QXPath Document "//missing")]
       [])
  /\ fetch Sample.missingGrandChild (Some 100) Sample.start
     = (Throw (PompTimeoutError "//missing" 2000),
        mkWorld 2000 0
          [(500, QXPath Document "//missing"); (1000, QXPath Document "//missing");
           (1500, QXPath Document "//missing")]
          []).
Proof.
  destruct (proj1 (proj2 (child_fetch_fails_with_parent_error Sample.missing
                            (PompTimeoutError "//missing" 2000) Sample.start
                            (mkWorld 2000 0
                               [(500, QXPath Document "//missing");
                                (1000, QXPath Document "//missing");
                                (1500, QXPath Document "//missing")] [])
                            eq_refl))
              ".//b"%string ".//c"%string None None
              Sample.missingChild Sample.missingGrandChild
              (mkWorld 0 102 [] []) (mkWorld 0 103 [] [])
              (mkWorld 0 103 [] []) (mkWorld 0 104 [] [])
              (or_introl eq_refl) (or_introl eq_refl) (Some 100))
    as (HB & HC & _).
  split; [exact HB|exact HC].
Defined.

(* ================================================================== *)
(** * Properties of PompElementCollection *)
(* ================================================================== *)

Lemma keepsCalls_app {A B} (f : A -> M B) (l1 l2 : list A) :
  keepsCalls f (l1 ++ l2) -> keepsCalls f l1 /\ keepsCalls f l2.
Proof.
  intros K. split; intros a Ha; apply K; apply in_or_app; auto.
Qed.

Lemma callPredicate_calls (predicate : PompElement -> M bool) (el : PompElement)
  (w : World) :
  keepsCalls predicate [el] ->
  calls (snd (callPredicate predicate el w)) = calls w ++ [el_id el].
Proof.
  intros K. unfold callPredicate, bind, noteCall.
  exact (K el (or_introl eq_refl)
           (mkWorld (now w) (next_id w) (trace w) (calls w ++ [el_id el]))).
Qed.

Lemma evalEach_cons_inv (predicate : PompElement -> M bool) (el : PompElement)
  (rest : list PompElement) (bs : list bool) (w w' : World) :
  evalEach predicate (el :: rest) w = (Ok bs, w') ->
  exists (b : bool) (bs' : list bool) (wa : World),
    bs = b :: bs'
    /\ callPredicate predicate el w = (Ok b, wa)
    /\ evalEach predicate rest wa = (Ok bs', w').
Proof.
  simpl. unfold bind at 1.
  destruct (callPredicate predicate el w) as [[b|e] wa]; [|discriminate].
  unfold bind at 1.
  destruct (evalEach predicate rest wa) as [[bs'|e] wb] eqn:E; [|discriminate].
  unfold ret. intros H. injection H as <- <-.
  exists b, bs', wa. split; [reflexivity|]. split; [reflexivity|exact E].
Qed.

Lemma evalEach_calls (predicate : PompElement -> M bool) :
  forall (els : list PompElement) (bs : list bool) (w w' : World),
    keepsCalls predicate els ->
    evalEach predicate els w = (Ok bs, w') ->
    calls w' = calls w ++ map el_id els.
Proof.
  induction els as [|el rest IH]; intros bs w w' K H.
  - simpl in H. injection H as _ <-. now rewrite app_nil_r.
  - apply evalEach_cons_inv in H as (b & bs' & wa & _ & Hc & Hr).
    destruct (keepsCalls_app predicate [el] rest K) as [K1 K2].
    apply IH in Hr; [|exact K2]. rewrite Hr.
    pose proof (callPredicate_calls predicate el w K1) as C.
    rewrite Hc in C. simpl in C. rewrite C, <- app_assoc. reflexivity.
Qed.

Lemma findLoop_found (predicate : PompElement -> M bool) (x : PompElement)
  (post : list PompElement) :
  forall (pre : list PompElement) (w1 w2 w3 : World),
    evalEach predicate pre w1 = (Ok (map (fun _ => false) pre), w2) ->
    callPredicate predicate x w2 = (Ok true, w3) ->
    Collection.findLoop predicate (pre ++ x :: post) w1 = (Ok (Some x), w3).
Proof.
  induction pre as [|el pre IH]; intros w1 w2 w3 Hpre Hx.
  - simpl in Hpre. injection Hpre as <-.
    simpl. unfold bind. now rewrite Hx.
  - apply evalEach_cons_inv in Hpre as (b & bs' & wa & Hb & Hc & Hr).
    simpl in Hb. injection Hb as <- <-.
    simpl. unfold bind at 1. rewrite Hc.
    now apply (IH wa w2 w3).
Qed.

Lemma findLoop_none (predicate : PompElement -> M bool) :
  forall (els : list PompElement) (w1 w2 : World),
    evalEach predicate els w1 = (Ok (map (fun _ => false) els), w2) ->
    Collection.findLoop predicate els w1 = (Ok None, w2).
Proof.
  induction els as [|el els IH]; intros w1 w2 H.
  - simpl in H. injection H as <-. reflexivity.
  - apply evalEach_cons_inv in H as (b & bs' & wa & Hb & Hc & Hr).
    simpl in Hb. injection Hb as <- <-.
    simpl. unfold bind at 1. rewrite Hc.
    now apply IH.
Qed.

(** C6.  [find] fetches the collection once and calls the predicate on the
    items in order, one call at a time.  If the predicate is falsy on the
    items of [pre] and truthy on [x], [find] returns [x] in the world left
    by the call on [x]: nothing is evaluated on the items after [x], and the
    predicate has been invoked exactly on [pre] and [x].  If it is falsy on
    every item, [find] returns nothing ([undefined]). *)
Theorem find_returns_first_match_and_stops :
  forall (this : PompElementCollection) (predicate : PompElement -> M bool)
         (w w1 : World) (els : list PompElement),
    c_fetch this None w = (Ok els, w1) ->
    (forall (pre : list PompElement) (x : PompElement) (post : list PompElement)
            (w2 w3 : World),
        els = pre ++ x :: post ->
        evalEach predicate pre w1 = (Ok (map (fun _ => false) pre), w2) ->
        callPredicate predicate x w2 = (Ok true, w3) ->
        Collection.find this predicate w = (Ok (Some x), w3)
        /\ (keepsCalls predicate els ->
            calls w3 = calls w1 ++ map el_id pre ++ [el_id x]))
    /\ (forall w2 : World,
          evalEach predicate els w1 = (Ok (map (fun _ => false) els), w2) ->
          Collection.find this predicate w = (Ok None, w2)
          /\ (keepsCalls predicate els ->
              calls w2 = calls w1 ++ map el_id els)).
Proof.
  intros this predicate w w1 els Hfetch. split.
  - intros pre x post w2 w3 -> Hpre Hx. split.
    + unfold Collection.find, bind. rewrite Hfetch.
      now apply (findLoop_found predicate x post pre w1 w2 w3).
    + intros K.
      destruct (keepsCalls_app predicate pre (x :: post) K) as [Kpre Kx].
      destruct (keepsCalls_app predicate [x] post Kx) as [Kx' _].
      pose proof (callPredicate_calls predicate x w2 Kx') as C.
      rewrite Hx in C. simpl in C.
      rewrite C, (evalEach_calls predicate pre _ w1 w2 Kpre Hpre), <- app_assoc.
      reflexivity.
  - intros w2 Hall. split.
    + unfold Collection.find, bind. rewrite Hfetch.
      now apply findLoop_none.
    + intros K. exact (evalEach_calls predicate els _ w1 w2 K Hall).
Qed.

Lemma find_returns_first_match_and_stops_witness :
  (exists w3 : World,
      Collection.find Sample.items Sample.isThird Sample.start
      = (Ok (Some (Sample.pinned 1 3%nat)), w3)
      /\ calls w3 = [0%nat; 1%nat])
  /\ (exists w2 : World,
         Collection.find Sample.items (fun _ => ret false) Sample.start
         = (Ok None, w2)
         /\ calls w2 = [0%nat; 1%nat; 2%nat]).
Proof.
  pose (w1 := mkWorld 509 3
                [(500, QXPath Document "//ul");
                 (502, QWaitForSelector (Within 1%nat) "li" None);
                 (507, QSelectorAll (Within 1%nat) "li")] []).
  pose (els := [Sample.pinned 0 2%nat; Sample.pinned 1 3%nat; Sample.pinned 2 4%nat]).
  split.
  - destruct (proj1 (find_returns_first_match_and_stops Sample.items
                       Sample.isThird Sample.start w1 els eq_refl)
                [Sample.pinned 0 2%nat] (Sample.pinned 1 3%nat)
                [Sample.pinned 2 4%nat]
                (mkWorld 509 3 (trace w1) [0%nat])
                (mkWorld 509 3 (trace w1) [0%nat; 1%nat])
                eq_refl eq_refl eq_refl) as [Hfind Hcalls].
    eexists. split; [exact Hfind|].
    apply Hcalls. intros a [<-|[<-|[<-|[]]]] w; reflexivity.
  - destruct (proj2 (find_returns_first_match_and_stops Sample.items
                       (fun _ => ret false) Sample.start w1 els eq_refl)
                (mkWorld 509 3 (trace w1) [0%nat; 1%nat; 2%nat]) eq_refl)
      as [Hfind Hcalls].
    eexists. split; [exact Hfind|].
    apply Hcalls. intros a _ w. reflexivity.
Defined.

Lemma spawnAll_total {A B} (f : A -> M B) :
  forall (l : list A) (w : World),
    exists (ps : list (Promise B)) (w' : World),
      spawnAll f l w = (Ok ps, w') /\ length ps = length l.
Proof.
  induction l as [|a rest IH]; intros w.
  - exists [], w. split; reflexivity.
  - simpl. unfold bind at 1, spawn at 1.
    destruct (f a w) as [r wa].
    destruct (IH (setNow (now w) wa)) as (ps & w' & E & L).
    unfold bind at 1. rewrite E. unfold ret.
    eexists _, w'. split; [reflexivity|]. simpl. now rewrite L.
Qed.

Lemma spawnAll_cons_inv {A B} (f : A -> M B) (a : A) (rest : list A)
  (ps : list (Promise B)) (w w' : World) :
  spawnAll f (a :: rest) w = (Ok ps, w') ->
  exists (ps' : list (Promise B)),
    ps = mkPromise (fst (f a w)) (Z.max (now w) (now (snd (f a w)))) :: ps'
    /\ spawnAll f rest (setNow (now w) (snd (f a w))) = (Ok ps', w').
Proof.
  simpl. unfold bind at 1, spawn at 1.
  destruct (f a w) as [r wa]. simpl.
  unfold bind at 1.
  destruct (spawnAll f rest (setNow (now w) wa)) as [[ps'|e] wb] eqn:E;
    [|discriminate].
  unfold ret. intros H. injection H as <- <-.
  exists ps'. split; reflexivity.
Qed.

Lemma spawnAll_validate_calls (predicate : PompElement -> M bool) :
  forall (els : list PompElement) (ps : list (Promise (PompElement * bool)))
         (w w' : World),
    keepsCalls predicate els ->
    spawnAll (validate predicate) els w = (Ok ps, w') ->
    calls w' = calls w ++ map el_id els.
Proof.
  induction els as [|el rest IH]; intros ps w w' K H.
  - simpl in H. injection H as _ <-. now rewrite app_nil_r.
  - apply spawnAll_cons_inv in H as (ps' & _ & Hr).
    destruct (keepsCalls_app predicate [el] rest K) as [K1 K2].
    apply IH in Hr; [|exact K2]. rewrite Hr. simpl.
    pose proof (callPredicate_calls predicate el w K1) as C.
    unfold validate, bind at 1.
    destruct (callPredicate predicate el w) as [[b|e] wa]; simpl in *;
      rewrite C, <- app_assoc; reflexivity.
Qed.

Lemma all_fulfilled {A} :
  forall (ps : list (Promise A)) (vs : list A),
    map p_outcome ps = map Ok vs ->
    firstRejection ps = None /\ fulfilled ps = vs.
Proof.
  induction ps as [|p ps IH]; intros [|v vs] H; try discriminate.
  - split; reflexivity.
  - simpl in H. injection H as Hp Hps.
    destruct (IH vs Hps) as [Hr Hf].
    simpl. rewrite Hp, Hr, Hf. split; reflexivity.
Qed.



Lemma wrap_pinnedItems (Type_ : option string) (page : Page) :
  forall (hs : list Handle) (w : World),
    Collection.wrap Type_ page hs w
    = (Ok (pinnedItems Type_ page hs (next_id w)),
       mkWorld (now w) (next_id w + length hs) (trace w) (calls w)).
Proof.
  induction hs as [|h rest IH]; intros w.
  - simpl. unfold ret. rewrite Nat.add_0_r. now destruct w.
  - simpl. unfold bind at 1, newElement, bind at 1, fresh, ret at 1.
    unfold bind at 1. rewrite IH. unfold ret. simpl.
    now rewrite Nat.add_succ_r.
Qed.

Lemma length_pinnedItems (Type_ : option string) (page : Page) :
  forall (hs : list Handle) (n : nat),
    length (pinnedItems Type_ page hs n) = length hs.
Proof.
  induction hs as [|h rest IH]; intros n; simpl; [reflexivity|].
  now rewrite IH.
Qed.

Lemma nth_pinnedItems (Type_ : option string) (page : Page) :
  forall (hs : list Handle) (n i : nat) (h : Handle),
    nth_error hs i = Some h ->
    nth_error (pinnedItems Type_ page hs n) i
    = Some (mkElement (n + i) Type_ page (fun _ => ret h)).
Proof.
  induction hs as [|h0 rest IH]; intros n i h H.
  - destruct i; discriminate.
  - destruct i as [|i]; simpl in *.
    + injection H as ->. now rewrite Nat.add_0_r.
    + rewrite (IH (S n) i h H). now rewrite Nat.add_succ_r.
Qed.

Lemma ids_pinnedItems (Type_ : option string) (page : Page) :
  forall (hs : list Handle) (n : nat),
    map el_id (pinnedItems Type_ page hs n) = seq n (length hs).
Proof.
  induction hs as [|h rest IH]; intros n; simpl; [reflexivity|].
  now rewrite IH.
Qed.

Lemma in_ids_pinnedItems (Type_ : option string) (page : Page)
  (hs : list Handle) (n : nat) (el : PompElement) :
  In el (pinnedItems Type_ page hs n) ->
  (n <= el_id el < n + length hs)%nat.
Proof.
  intros H. apply (in_map el_id) in H.
  rewrite ids_pinnedItems in H. apply in_seq in H. exact H.
Qed.

(** C8.  Each [fetch] of a collection calls the handle-list fetcher and
    returns one newly allocated element per handle, in order, of the
    supplied class, whose own [fetch] returns that handle and touches
    nothing (no driver call, no time).  Elements of one fetch have distinct
    identities, and a second fetch that finds the same handles returns
    elements pinned to the same handles, position by position, under
    identities that the first fetch did not use. *)
Theorem collection_fetch_builds_fresh_pinned_items :
  forall (page : Page) (collectionFetcher : option Z -> M (list Handle))
         (Type_ : option string) (timeout : option Z) (w w1 : World)
         (hs : list Handle),
    collectionFetcher timeout w = (Ok hs, w1) ->
    exists els : list PompElement,
      c_fetch (Collection.new page collectionFetcher Type_) timeout w
      = (Ok els,
         mkWorld (now w1) (next_id w1 + length hs) (trace w1) (calls w1))
      /\ length els = length hs
      /\ (forall (i : nat) (h : Handle),
            nth_error hs i = Some h ->
            exists el : PompElement,
              nth_error els i = Some el
              /\ el_id el = (next_id w1 + i)%nat
              /\ el_type el = Type_
              /\ el_page el = page
              /\ forall (t : option Z) (w' : World), fetch el t w' = (Ok h, w'))
      /\ NoDup (map el_id els)
      /\ (forall (timeout2 : option Z) (wb wb1 : World),
            collectionFetcher timeout2 wb = (Ok hs, wb1) ->
            (next_id w1 + length hs <= next_id wb1)%nat ->
            exists (els2 : list PompElement) (wb2 : World),
              c_fetch (Collection.new page collectionFetcher Type_) timeout2 wb
              = (Ok els2, wb2)
              /\ length els2 = length els
              /\ (forall (i : nat) (e1 e2 : PompElement),
                    nth_error els i = Some e1 ->
                    nth_error els2 i = Some e2 ->
                    forall (t : option Z) (w' : World),
                      fetch e1 t w' = fetch e2 t w')
              /\ (forall e1 e2 : PompElement,
                    In e1 els -> In e2 els2 -> el_id e1 <> el_id e2)).
Proof.
  intros page cf Type_ timeout w w1 hs Hcf.
  exists (pinnedItems Type_ page hs (next_id w1)).
  split.
  { unfold Collection.new, c_fetch, bind. rewrite Hcf. apply wrap_pinnedItems. }
  split; [apply length_pinnedItems|].
  split.
  { intros i h Hi. eexists. split; [apply nth_pinnedItems; exact Hi|].
    simpl. repeat split. }
  split.
  { rewrite ids_pinnedItems. apply seq_NoDup. }
  intros timeout2 wb wb1 Hcf2 Hle.
  exists (pinnedItems Type_ page hs (next_id wb1)). eexists.
  split.
  { unfold Collection.new, c_fetch, bind. rewrite Hcf2. apply wrap_pinnedItems. }
  split; [now rewrite !length_pinnedItems|].
  split.
  - intros i e1 e2 H1 H2 t w'.
    destruct (nth_error hs i) as [h|] eqn:Hh.
    + rewrite (nth_pinnedItems Type_ page hs _ i h Hh) in H1.
      rewrite (nth_pinnedItems Type_ page hs _ i h Hh) in H2.
      injection H1 as <-. injection H2 as <-. reflexivity.
    + apply nth_error_None in Hh.
      assert (nth_error (pinnedItems Type_ page hs (next_id w1)) i = None) as N.
      { apply nth_error_None. now rewrite length_pinnedItems. }
      congruence.
  - intros e1 e2 H1 H2.
    apply in_ids_pinnedItems in H1. apply in_ids_pinnedItems in H2. lia.
Qed.

Lemma collection_fetch_builds_fresh_pinned_items_witness :
  exists (els els2 : list PompElement) (w2 wb2 : World),
    c_fetch Sample.items None Sample.start = (Ok els, w2)
    /\ c_fetch Sample.items None w2 = (Ok els2, wb2)
    /\ length els = 3%nat
    /\ length els2 = 3%nat
    /\ NoDup (map el_id els)
    /\ (forall e1 e2 : PompElement,
          In e1 els -> In e2 els2 -> el_id e1 <> el_id e2).
Proof.
  destruct (collection_fetch_builds_fresh_pinned_items Sample.session
              (Element.dollar_dollar_fetcher Sample.list_ "li") (Some "Item"%string)
              None Sample.start
              (mkWorld 509 0
                 [(500, QXPath Document "//ul");
                  (502, QWaitForSelector (Within 1%nat) "li" None);
                  (507, QSelectorAll (Within 1%nat) "li")] [])
              [2%nat; 3%nat; 4%nat] eq_refl)
    as (els & Hf & Hl & _ & Hn & Hsecond).
  destruct (Hsecond None
              (mkWorld 509 3
                 [(500, QXPath Document "//ul");
                  (502, QWaitForSelector (Within 1%nat) "li" None);
                  (507, QSelectorAll (Within 1%nat) "li")] [])
              (mkWorld 1018 3
                 [(500, QXPath Document "//ul");
                  (502, QWaitForSelector (Within 1%nat) "li" None);
                  (507, QSelectorAll (Within 1%nat) "li");
                  (1009, QXPath Document "//ul");
                  (1011, QWaitForSelector (Within 1%nat) "li" None);
                  (1016, QSelectorAll (Within 1%nat) "li")] [])
              eq_refl (le_n 3))
    as (els2 & wb2 & Hf2 & Hl2 & _ & Hd).
  exists els, els2. eexists. exists wb2.
  split; [exact Hf|]. split; [exact Hf2|]. split; [exact Hl|].
  split; [now rewrite Hl2, Hl|]. split; [exact Hn|exact Hd].
Defined.

(* ================================================================== *)
(** * Further properties of the timeout defaults *)
(* ================================================================== *)

Lemma effectiveTimeout_nonzero (page : Page) (timeout : option Z) (T : Z) :
  effectiveTimeout page timeout = Ok T -> T <> 0.
Proof.
  unfold effectiveTimeout, truthyNumber.
  assert (S : match sessionTimeout page with
              | Throw e => Throw e
              | Ok z => if negb (z =? 0) then Ok z else Ok 10000
              end = Ok T -> T <> 0).
  { destruct (sessionTimeout page) as [z|e]; [|discriminate].
    destruct (z =? 0) eqn:E; simpl; intros H; injection H as <-.
    - discriminate.
    - now apply Z.eqb_neq. }
  destruct timeout as [t|]; [|exact S].
  destruct (t =? 0) eqn:E; simpl; [exact S|].
  intros H. injection H as <-. now apply Z.eqb_neq.
Qed.

Lemma effectiveTimeout_explicit (page : Page) (t : Z) :
  t <> 0 -> effectiveTimeout page (Some t) = Ok t.
Proof.
  intros H. rewrite effectiveTimeout_supplied.
  apply Z.eqb_neq in H. now rewrite H.
Qed.

Lemma effectiveTimeout_throw_inv (page : Page) (timeout : option Z)
  (e : Error) :
  effectiveTimeout page timeout = Throw e ->
  truthyNumber timeout = false /\ sessionTimeout page = Throw e.
Proof.
  unfold effectiveTimeout.
  assert (S : match sessionTimeout page with
              | Throw e0 => Throw e0
              | Ok z => if truthyNumber (Some z) then Ok z else Ok 10000
              end = Throw e -> sessionTimeout page = Throw e).
  { destruct (sessionTimeout page) as [z|e0]; [|congruence].
    destruct (truthyNumber (Some z)); discriminate. }
  destruct timeout as [t|].
  - destruct (truthyNumber (Some t)) eqn:Tr; [discriminate|].
    intros H. split; [reflexivity|]. now apply S.
  - intros H. split; [reflexivity|]. now apply S.
Qed.

(** X1.  The deadline [waitFor] works with is never 0.  A non-zero timeout
    passed by the caller is always the one used, whatever the session
    object looks like; the only way the computation of the deadline fails
    is a [TypeError], and only when the caller's timeout is absent or 0. *)
Theorem effective_timeout_never_zero :
  forall (page : Page) (timeout : option Z),
    (forall T : Z, effectiveTimeout page timeout = Ok T -> T <> 0)
    /\ (forall t : Z, t <> 0 -> effectiveTimeout page (Some t) = Ok t)
    /\ (forall e : Error,
           effectiveTimeout page timeout = Throw e ->
           truthyNumber timeout = false
           /\ sessionTimeout page = Throw e
           /\ exists msg : string, e = TypeError msg).
Proof.
  intros page timeout. split; [|split].
  - intros T. apply effectiveTimeout_nonzero.
  - intros t. apply effectiveTimeout_explicit.
  - intros e. unfold effectiveTimeout.
    assert (S : match sessionTimeout page with
                | Throw e0 => Throw e0
                | Ok z => if truthyNumber (Some z) then Ok z else Ok 10000
                end = Throw e ->
                sessionTimeout page = Throw e /\ exists msg, e = TypeError msg).
    { unfold sessionTimeout.
      destruct (_timeoutSettings page) as [[[z|]]|]; cbn [ts_timeout].
      - destruct (truthyNumber (Some z)); discriminate.
      - intros H. injection H as <-. split; [reflexivity|eexists; reflexivity].
      - intros H. injection H as <-. split; [reflexivity|eexists; reflexivity]. }
    destruct timeout as [t|].
    + destruct (truthyNumber (Some t)) eqn:Tr; [discriminate|].
      intros H. split; [reflexivity|]. now apply S.
    + intros H. split; [reflexivity|]. now apply S.
Qed.

Lemma effective_timeout_never_zero_witness :
  effectiveTimeout Sample.session None <> Ok 0
  /\ effectiveTimeout Sample.bareSession (Some 750) = Ok 750
  /\ truthyNumber (Some 0) = false.
Proof.
  destruct (effective_timeout_never_zero Sample.session None) as (N & _ & _).
  destruct (effective_timeout_never_zero Sample.bareSession (Some 0))
    as (_ & X & F).
  split; [|split].
  - intros H. exact (N 0 H eq_refl).
  - apply X. discriminate.
  - exact (proj1 (F (TypeError
                      "Cannot read properties of undefined (reading 'timeout')")
                    eq_refl)).
Defined.

(** X2.  The timeout a [PompTimeoutError] reports is never 0; it is the
    deadline [waitFor] used whenever [waitFor] could compute one, and 10000
    when [waitFor] itself would have thrown on the session. *)
Theorem lookup_timeout_error_reports_the_deadline :
  forall (page : Page) (selector : string) (timeout : option Z),
    exists T : Z,
      newPompTimeoutError page selector timeout = PompTimeoutError selector T
      /\ T <> 0
      /\ (forall T' : Z, effectiveTimeout page timeout = Ok T' -> T = T')
      /\ (forall e : Error, effectiveTimeout page timeout = Throw e -> T = 10000).
Proof.
  intros page selector timeout.
  exists (errorTimeout page timeout).
  split; [reflexivity|].
  assert (Sess : forall z, sessionTimeoutOptional page = Some z ->
                           sessionTimeout page = Ok z).
  { unfold sessionTimeoutOptional, sessionTimeout.
    destruct (_timeoutSettings page) as [[[z0|]]|]; cbn [ts_timeout];
      intros z H; try discriminate. now injection H as <-. }
  split; [|split].
  - unfold errorTimeout, truthyNumber.
    assert (S : match sessionTimeoutOptional page with
                | Some z => if negb (z =? 0) then z else 10000
                | None => 10000
                end <> 0).
    { destruct (sessionTimeoutOptional page) as [z|]; [|discriminate].
      destruct (z =? 0) eqn:E; simpl; [discriminate|now apply Z.eqb_neq]. }
    destruct timeout as [t|]; [|exact S].
    destruct (t =? 0) eqn:E; simpl; [exact S|now apply Z.eqb_neq].
  - intros T' H. now apply errorTimeout_effective.
  - intros e H.
    destruct (effectiveTimeout_throw_inv page timeout e H) as [F S].
    unfold errorTimeout. destruct timeout as [t|].
    + rewrite F. destruct (sessionTimeoutOptional page) as [z|] eqn:O;
        [|reflexivity].
      specialize (Sess z eq_refl). congruence.
    + destruct (sessionTimeoutOptional page) as [z|] eqn:O; [|reflexivity].
      specialize (Sess z eq_refl). congruence.
Qed.

Lemma lookup_timeout_error_reports_the_deadline_witness :
  newPompTimeoutError Sample.session "//missing" (Some 0)
  = PompTimeoutError "//missing" 2000
  /\ newPompTimeoutError Sample.bareSession "//missing" None
     = PompTimeoutError "//missing" 10000.
Proof.
  destruct (lookup_timeout_error_reports_the_deadline Sample.session
              "//missing" (Some 0)) as (T & E & _ & A & _).
  destruct (lookup_timeout_error_reports_the_deadline Sample.bareSession
              "//missing" None) as (T' & E' & _ & _ & B).
  rewrite E, E'. split.
  - now rewrite (A 2000 eq_refl).
  - now rewrite (B (TypeError
                      "Cannot read properties of undefined (reading 'timeout')")
                   eq_refl).
Defined.

(* ================================================================== *)
(** * The schedule of the poller *)
(* ================================================================== *)

Lemma earliest_forall {A} (R : Z * Res A -> Prop) :
  forall (l : list (Z * Res A)) (x : Z * Res A) (rest : list (Z * Res A)),
    earliest l = Some (x, rest) ->
    Forall R l -> R x /\ Forall R rest.
Proof.
  induction l as [|y l IH]; intros x rest H F; [discriminate|].
  inversion F as [|? ? Ry Rl]; subst.
  simpl in H. destruct (earliest l) as [[z rest']|] eqn:E.
  - destruct (IH z rest' eq_refl Rl) as [Rz Rr].
    destruct (fst y <=? fst z); injection H as <- <-; auto.
  - injection H as <- <-. auto.
Qed.

Lemma pollSteps_add {A} (truthy : A -> bool) (predicate : M A) (every : Z)
  (n m : nat) (s : PollState A) :
  pollSteps truthy predicate every (n + m) s
  = pollSteps truthy predicate every n (pollSteps truthy predicate every m s).
Proof. unfold pollSteps. apply Nat.iter_add. Qed.

Lemma pollSteps_quiescent {A} (truthy : A -> bool) (predicate : M A)
  (every : Z) (s : PollState A) :
  quiescent s = true ->
  forall n : nat, pollSteps truthy predicate every n s = s.
Proof.
  intros Hq. induction n as [|n IH]; [reflexivity|].
  unfold pollSteps in *. simpl. rewrite IH.
  now apply step_quiescent.
Qed.

Section PollerSchedule.
Context {A : Type}.
Variable truthy : A -> bool.
Variable predicate : M A.
Variable every : Z.
Hypothesis every_pos : 1 <= every.
Variable t0 D : Z.
Hypothesis D_pos : 1 <= D.

Local Notation "'Inv'" := (PollInv truthy (t0 + D) (fun _ : Res A => True)).
Local Notation "'Timing'" := (@PollTiming A every t0 D).

Lemma onSchedule_after (t : Z) : onSchedule every t0 t -> t0 + every <= t.
Proof. intros (k & Hk & ->). nia. Qed.

Lemma min_le_schedule (t : Z) : t0 + every <= t -> t0 + Z.min every D <= t.
Proof. lia. Qed.

Lemma timing_start (w : World) :
  t0 = now w -> Timing (pollStart every D w).
Proof.
  intros ->. constructor; simpl.
  - intros f E. injection E as <-. exists 1. lia.
  - constructor.
  - discriminate.
  - constructor.
  - unfold ticks.
    assert (0 <= D / every) by (apply Z.div_pos; lia).
    destruct (now w + every <=? now w + D) eqn:Le; [|lia].
    replace (now w + D - (now w + every)) with (D + (-1) * every) by lia.
    rewrite Z.div_add by lia. lia.
Qed.

Lemma timing_settle (t : Z) (v : option A) (s : PollState A) :
  Timing s -> t0 + Z.min every D <= t ->
  Timing (resolve t v (clearTimeout (clearInterval s))).
Proof.
  intros [T1 T2 T3 T4 T5] Ht.
  assert (C : Z.of_nat (invocations (plog s)) <= D / every).
  { destruct (trier s) as [f|], (quitter s) as [q|]; try lia.
    pose proof (ticks_nonneg every every_pos f q). lia. }
  unfold resolve. cbn [settled clearTimeout clearInterval].
  destruct (settled s) as [[t1 v1]|] eqn:S.
  - constructor;
      cbn [trier quitter inflight settled plog clearTimeout clearInterval];
      try assumption.
    + discriminate.
    + rewrite S. exact T3.
    + lia.
  - constructor;
      cbn [trier quitter inflight settled plog clearTimeout clearInterval];
      try assumption.
    + discriminate.
    + intros t' v' E. injection E as <- <-. exact Ht.
    + constructor; assumption.
    + cbn [invocations]. lia.
Qed.

Lemma timing_step (s : PollState A) :
  Inv s -> Timing s -> Timing (step truthy predicate every s).
Proof.
  intros I Tm.
  assert (Fire : Timing (fireTimer predicate every s)).
  { pose proof I as [I1 I2 I3 I4 I5 I6 I7].
    pose proof Tm as [T1 T2 T3 T4 T5].
    unfold fireTimer.
    destruct (trier s) as [f|] eqn:Tr, (quitter s) as [q|] eqn:Qu.
    - pose proof (I3 q eq_refl) as Hq.
      pose proof (T1 f eq_refl) as Hf.
      destruct (trierFirst s f q) eqn:Le.
      + apply trierFirst_le in Le. unfold onTrier.
        destruct (predicate (setNow f (ps_world s))) as [r w'].
        constructor; cbn [trier quitter inflight settled plog].
        * intros f' E. injection E as <-.
          destruct Hf as (k & Hk & ->). exists (k + 1). lia.
        * apply Forall_app. split; [exact T2|].
          constructor; [|constructor]. cbn [fst].
          pose proof (onSchedule_after f Hf). lia.
        * exact T3.
        * constructor; [|exact T4]. split; [exact Hf|lia].
        * rewrite Qu. cbn [invocations].
          pose proof (ticks_fire every every_pos f q Le). lia.
      + unfold onQuitter.
        replace (clearInterval (expireQuitter s))
          with (clearTimeout (clearInterval s)) by reflexivity.
        apply timing_settle; [exact Tm|]. lia.
    - discriminate (proj2 I1 eq_refl).
    - discriminate (proj1 I1 eq_refl).
    - exact Tm. }
  unfold step.
  destruct (earliest (inflight s)) as [[[c r] rest]|] eqn:E; [|exact Fire].
  destruct (notAfter c (trier s) && notAfter c (quitter s)); [|exact Fire].
  pose proof Tm as [T1 T2 T3 T4 T5].
  destruct (earliest_forall _ _ _ _ E T2) as [Hc Hrest].
  assert (Tm' : Timing (setInflight rest s)) by (constructor; assumption).
  unfold onCompletion. destruct r as [a|e]; [|exact Tm'].
  destruct (truthy a); [|exact Tm'].
  apply timing_settle; [exact Tm'|]. cbn [fst] in Hc. lia.
Qed.

Lemma timing_steps (n : nat) (s : PollState A) :
  Inv s -> Timing s -> Timing (pollSteps truthy predicate every n s).
Proof.
  intros I Tm. induction n as [|n IH]; [exact Tm|].
  unfold pollSteps in *. simpl.
  apply timing_step; [|exact IH].
  apply (inv_steps truthy predicate every (t0 + D) (fun _ => True));
    [auto|exact I].
Qed.
End PollerSchedule.

Lemma invoked_in_log (l : list PollEvent) (R : PollEvent -> Prop) (t : Z) :
  Forall R l -> In (Invoked t) l -> R (Invoked t).
Proof. intros F H. rewrite Forall_forall in F. now apply F. Qed.

Lemma pollRun_deadline_first {A} (truthy : A -> bool) (predicate : M A)
  (every D : Z) (w : World) :
  1 <= D -> D < every ->
  pollRun truthy predicate every D w
  = mkPoll w None None [] (Some (now w + D, None)) [Settled (now w + D)].
Proof.
  intros HD Hlt. unfold pollRun, pollFuel.
  rewrite Z.div_small by lia.
  change (Z.to_nat (2 * 0 + 2)) with (1 + 1)%nat.
  rewrite pollSteps_add.
  assert (S1 : pollSteps truthy predicate every 1 (pollStart every D w)
               = mkPoll w None None [] (Some (now w + D, None))
                        [Settled (now w + D)]).
  { unfold pollSteps, pollStart. simpl. unfold step, fireTimer, trierFirst.
    simpl.
    replace (now w + every <? now w + D) with false
      by (symmetry; apply Z.ltb_ge; lia).
    replace (now w + every =? now w + D) with false
      by (symmetry; apply Z.eqb_neq; lia).
    reflexivity. }
  rewrite S1. now apply pollSteps_quiescent.
Qed.

Lemma pollRun_deadline_first_waitFor {A} (truthy : A -> bool) (page : Page)
  (predicate : M A) (timeout interval : option Z) (T : Z) (w : World) :
  effectiveTimeout page timeout = Ok T ->
  timerDelay T < timerDelay (effectiveInterval interval) ->
  waitFor truthy page predicate timeout interval w
  = (Ok None, setNow (now w + timerDelay T) w).
Proof.
  intros ET Hlt. unfold waitFor. rewrite ET. cbv zeta.
  rewrite (pollRun_deadline_first truthy predicate
             (timerDelay (effectiveInterval interval)) (timerDelay T) w
             (timerDelay_pos T) Hlt).
  reflexivity.
Qed.

(** X3.  [waitFor] never calls the predicate right away.  The calls happen
    at whole multiples of the interval after the start, none after the
    deadline, so there are at most [timeout / interval] of them (delays as
    the runtime normalises them), and the promise is not resolved before
    the first interval, or the deadline if that is shorter, has elapsed. *)
Theorem poller_attempts_follow_the_schedule :
  forall (A : Type) (truthy : A -> bool) (page : Page) (predicate : M A)
         (timeout interval : option Z) (T : Z) (w : World),
    effectiveTimeout page timeout = Ok T ->
    let every := timerDelay (effectiveInterval interval) in
    let D := timerDelay T in
    let final := pollRun truthy predicate every D w in
    (forall t : Z,
        In (Invoked t) (plog final) ->
        (exists k : Z, 1 <= k /\ t = now w + k * every) /\ t <= now w + D)
    /\ Z.of_nat (invocations (plog final)) <= D / every
    /\ exists (v : option A) (w' : World),
         waitFor truthy page predicate timeout interval w = (Ok v, w')
         /\ now w + Z.min every D <= now w' <= now w + D.
Proof.
  intros A truthy page predicate timeout interval T w ET every D final.
  assert (He : 1 <= every) by apply timerDelay_pos.
  assert (HD : 1 <= D) by apply timerDelay_pos.
  destruct (pollRun_settles truthy predicate every He (now w + D)
              (fun _ => True) (fun _ => I) D w HD eq_refl)
    as (Inv & _ & t & v & S).
  fold final in Inv, S.
  assert (Tm : @PollTiming A every (now w) D final).
  { apply (timing_steps truthy predicate every He (now w) D).
    - apply inv_start. reflexivity.
    - apply timing_start; [exact He|exact HD|reflexivity]. }
  destruct Tm as [T1 T2 T3 T4 T5].
  split; [|split].
  - intros u Hu. exact (invoked_in_log _ _ u T4 Hu).
  - fold final in T5.
    destruct (trier final) as [f|], (quitter final) as [q|]; try lia.
    pose proof (ticks_nonneg every He f q). lia.
  - exists v, (setNow t (ps_world final)). split.
    + unfold waitFor. rewrite ET. cbv zeta. fold every D final.
      rewrite S. reflexivity.
    + cbn [now setNow]. split; [exact (T3 t v S)|].
      exact (proj1 (inv_value _ _ _ _ Inv t v S)).
Qed.

Lemma poller_attempts_follow_the_schedule_witness :
  let final := pollRun truthyFirst
                 (Element.firstMatch Sample.session Document "//late")
                 500 2000 Sample.start in
  (forall t : Z,
      In (Invoked t) (plog final) ->
      (exists k : Z, 1 <= k /\ t = 0 + k * 500) /\ t <= 0 + 2000)
  /\ Z.of_nat (invocations (plog final)) <= 2000 / 500
  /\ exists (v : option (option Handle)) (w' : World),
       waitFor truthyFirst Sample.session
               (Element.firstMatch Sample.session Document "//late")
               None None Sample.start
       = (Ok v, w')
       /\ 0 + Z.min 500 2000 <= now w' <= 0 + 2000.
Proof.
  exact (poller_attempts_follow_the_schedule (option Handle) truthyFirst
           Sample.session (Element.firstMatch Sample.session Document "//late")
           None None 2000 Sample.start eq_refl).
Defined.

(** X4.  When the deadline comes before the first firing of the interval
    timer (a timeout shorter than the interval), [waitFor] resolves with
    [null] at the deadline without ever calling the predicate, whatever the
    predicate would have returned: only the clock has moved. *)
Theorem deadline_before_first_attempt :
  forall (A : Type) (truthy : A -> bool) (page : Page) (predicate : M A)
         (timeout interval : option Z) (T : Z) (w : World),
    effectiveTimeout page timeout = Ok T ->
    timerDelay T < timerDelay (effectiveInterval interval) ->
    waitFor truthy page predicate timeout interval w
    = (Ok None, setNow (now w + timerDelay T) w)
    /\ invocations
         (plog (pollRun truthy predicate
                  (timerDelay (effectiveInterval interval)) (timerDelay T) w))
       = O.
Proof.
  intros A truthy page predicate timeout interval T w ET Hlt.
  pose proof (pollRun_deadline_first truthy predicate
                (timerDelay (effectiveInterval interval)) (timerDelay T) w
                (timerDelay_pos T) Hlt) as R.
  split.
  - unfold waitFor. rewrite ET. cbv zeta. rewrite R. reflexivity.
  - rewrite R. reflexivity.
Qed.

Lemma deadline_before_first_attempt_witness :
  waitFor truthyFirst Sample.session
    (Element.firstMatch Sample.session Document "//ul") (Some 300) None
    Sample.start
  = (Ok None, setNow 300 Sample.start).
Proof.
  exact (proj1 (deadline_before_first_attempt (option Handle) truthyFirst
                  Sample.session
                  (Element.firstMatch Sample.session Document "//ul")
                  (Some 300) None 300 Sample.start eq_refl eq_refl)).
Defined.

(** X5.  When the first call of the predicate returns a truthy value that
    arrives before the next firing of the interval timer and not after the
    deadline, [waitFor] resolves with that value at the instant it arrives,
    having called the predicate exactly once, one interval after the
    start. *)
Theorem first_attempt_resolves :
  forall (A : Type) (truthy : A -> bool) (page : Page) (predicate : M A)
         (timeout interval : option Z) (T : Z) (w w1 : World) (a : A),
    effectiveTimeout page timeout = Ok T ->
    let every := timerDelay (effectiveInterval interval) in
    let D := timerDelay T in
    let arrival := Z.max (now w + every) (now w1) in
    predicate (setNow (now w + every) w) = (Ok a, w1) ->
    truthy a = true ->
    every <= D ->
    arrival <= now w + every + every ->
    arrival <= now w + D ->
    waitFor truthy page predicate timeout interval w
    = (Ok (Some a), setNow arrival w1)
    /\ plog (pollRun truthy predicate every D w)
       = [Settled arrival; Invoked (now w + every)].
Proof.
  intros A truthy page predicate timeout interval T w w1 a ET every D arrival
         Hp Ha Hle Hnext Hdead.
  assert (He : 1 <= every) by apply timerDelay_pos.
  assert (R : pollRun truthy predicate every D w
              = mkPoll (setNow (now w + every) w1) None None []
                       (Some (arrival, Some a))
                       [Settled arrival; Invoked (now w + every)]).
  { unfold pollRun, pollFuel.
    assert (1 <= D / every) by (apply Z.div_le_lower_bound; lia).
    replace (Z.to_nat (2 * (D / every) + 2))
      with (Z.to_nat (2 * (D / every)) + 2)%nat by lia.
    rewrite pollSteps_add.
    assert (S2 : pollSteps truthy predicate every 2 (pollStart every D w)
                 = mkPoll (setNow (now w + every) w1) None None []
                          (Some (arrival, Some a))
                          [Settled arrival; Invoked (now w + every)]).
    { change (pollSteps truthy predicate every 2 (pollStart every D w))
        with (step truthy predicate every
                (step truthy predicate every (pollStart every D w))).
      assert (E1 : step truthy predicate every (pollStart every D w)
                   = mkPoll (setNow (now w + every) w1)
                            (Some (now w + every + every)) (Some (now w + D))
                            [(arrival, Ok a)] None [Invoked (now w + every)]).
      { unfold step, pollStart, fireTimer.
        cbn [inflight earliest trier quitter].
        replace (trierFirst (mkPoll w (Some (now w + every))
                               (Some (now w + D)) [] None [])
                            (now w + every) (now w + D)) with true.
        - unfold onTrier. cbn [ps_world]. rewrite Hp. reflexivity.
        - symmetry. unfold trierFirst, rearmed. cbn [plog existsb negb].
          rewrite andb_true_r.
          destruct (Z.ltb_spec (now w + every) (now w + D)) as [L|L];
            [reflexivity|].
          apply Z.eqb_eq. lia. }
      rewrite E1. unfold step.
      cbn [inflight earliest trier quitter notAfter].
      replace (arrival <=? now w + every + every) with true
        by (symmetry; apply Z.leb_le; lia).
      replace (arrival <=? now w + D) with true
        by (symmetry; apply Z.leb_le; lia).
      cbn [andb]. unfold onCompletion. rewrite Ha.
      reflexivity. }
    rewrite S2. now apply pollSteps_quiescent. }
  split.
  - unfold waitFor. rewrite ET. cbv zeta. fold every D. rewrite R.
    reflexivity.
  - rewrite R. reflexivity.
Qed.

Lemma first_attempt_resolves_witness :
  waitFor truthyFirst Sample.session
    (Element.firstMatch Sample.session Document "//ul") None None Sample.start
  = (Ok (Some (Some 1%nat)),
     mkWorld 502 0 [(500, QXPath Document "//ul")] []).
Proof.
  exact (proj1 (first_attempt_resolves (option Handle) truthyFirst
                  Sample.session
                  (Element.firstMatch Sample.session Document "//ul")
                  None None 2000 Sample.start
                  (mkWorld 502 0 [(500, QXPath Document "//ul")] [])
                  (Some 1%nat) eq_refl eq_refl eq_refl
                  ltac:(vm_compute; discriminate)
                  ltac:(vm_compute; discriminate)
                  ltac:(vm_compute; discriminate))).
Defined.

(* ================================================================== *)
(** * Further properties of the locators *)
(* ================================================================== *)

Lemma firstMatch_from_driver (page : Page) (sc : Scope) (selector : string)
  (w0 : World) (a : option Handle) :
  fst (Element.firstMatch page sc selector w0) = Ok a ->
  exists (t d : Z) (hs : list Handle),
    xpath (driver page) sc selector t = (Ok hs, d) /\ a = hd_error hs.
Proof.
  unfold Element.firstMatch, bind, drv_xpath, ask, ret.
  destruct (xpath (driver page) sc selector (now w0)) as [[hs|e] d] eqn:X;
    cbn [fst]; intros H; [|discriminate].
  injection H as <-. exists (now w0), d, hs. split; [exact X|reflexivity].
Qed.

Section PollerWorld.
Context {A : Type}.
Variable truthy : A -> bool.
Variable predicate : M A.
Variable every : Z.
Hypothesis every_pos : 1 <= every.
Variable t0 D : Z.
Hypothesis D_pos : 1 <= D.
(** A property of the world the calls of the predicate keep, and what it
    takes for an outcome of the predicate to be accounted for in a
    world. *)
Variable G : World -> Prop.
Variable J : World -> Res A -> Prop.
Hypothesis call_ok :
  forall (w : World) (f : Z),
    G w -> t0 + every <= f <= t0 + D ->
    G (setNow f (snd (predicate (setNow f w))))
    /\ J (setNow f (snd (predicate (setNow f w))))
         (fst (predicate (setNow f w)))
    /\ forall r0 : Res A,
         J w r0 -> J (setNow f (snd (predicate (setNow f w)))) r0.

Local Notation "'Inv'" := (PollInv truthy (t0 + D) (fun _ : Res A => True)).
Local Notation "'Timing'" := (@PollTiming A every t0 D).
Local Notation "'Just'" :=
  (fun s : PollState A =>
     G (ps_world s)
     /\ Forall (fun cr => J (ps_world s) (snd cr)) (inflight s)
     /\ forall (t : Z) (a : A),
          settled s = Some (t, Some a) -> J (ps_world s) (Ok a)).

Lemma just_step (s : PollState A) :
  Inv s -> Timing s -> Just s -> Just (step truthy predicate every s).
Proof.
  intros I Tm (Hg & Hin & Hse).
  assert (Fire : Just (fireTimer predicate every s)).
  { pose proof I as [I1 I2 I3 I4 I5 I6 I7].
    pose proof Tm as [T1 T2 T3 T4 T5].
    unfold fireTimer.
    destruct (trier s) as [f|] eqn:Tr, (quitter s) as [q|] eqn:Qu.
    - destruct (trierFirst s f q) eqn:Le.
      + apply trierFirst_le in Le.
        pose proof (onSchedule_after every every_pos t0 f (T1 f eq_refl)) as Lo.
        pose proof (I3 q eq_refl) as Hq.
        destruct (call_ok (ps_world s) f Hg ltac:(lia)) as (G' & J' & St).
        unfold onTrier.
        destruct (predicate (setNow f (ps_world s))) as [r w'].
        cbn [fst snd] in G', J', St.
        cbn [ps_world inflight settled]. split; [exact G'|]. split.
        * apply Forall_app. split.
          -- apply Forall_forall. intros cr Hcr. apply St.
             rewrite Forall_forall in Hin. now apply Hin.
          -- constructor; [exact J'|constructor].
        * intros t a E. apply St. exact (Hse t a E).
      + unfold onQuitter, resolve. cbn [settled clearInterval expireQuitter].
        destruct (settled s) as [[t1 v1]|] eqn:S; simpl.
        * split; [exact Hg|]. split; [exact Hin|]. rewrite S. exact Hse.
        * split; [exact Hg|]. split; [exact Hin|]. discriminate.
    - discriminate (proj2 I1 eq_refl).
    - discriminate (proj1 I1 eq_refl).
    - split; [exact Hg|]. split; [exact Hin|exact Hse]. }
  unfold step.
  destruct (earliest (inflight s)) as [[[c r] rest]|] eqn:E; [|exact Fire].
  destruct (notAfter c (trier s) && notAfter c (quitter s)); [|exact Fire].
  destruct (earliest_forall _ _ _ _ E Hin) as [Jr Jrest].
  cbn [snd] in Jr.
  unfold onCompletion. destruct r as [a|e].
  - destruct (truthy a).
    + unfold resolve.
      cbn [settled clearTimeout clearInterval setInflight].
      destruct (settled s) as [[t1 v1]|] eqn:S; simpl.
      * split; [exact Hg|]. split; [exact Jrest|]. rewrite S. exact Hse.
      * split; [exact Hg|]. split; [exact Jrest|].
        intros t a' H. injection H as _ <-. exact Jr.
    + split; [exact Hg|]. split; [exact Jrest|exact Hse].
  - split; [exact Hg|]. split; [exact Jrest|exact Hse].
Qed.

Lemma just_steps (n : nat) (s : PollState A) :
  Inv s -> Timing s -> Just s -> Just (pollSteps truthy predicate every n s).
Proof.
  intros I Tm Js. induction n as [|n IH]; [exact Js|].
  unfold pollSteps in *. simpl. apply just_step; [| |exact IH].
  - apply (inv_steps truthy predicate every (t0 + D) (fun _ => True));
      [auto|exact I].
  - apply (timing_steps truthy predicate every every_pos t0 D); assumption.
Qed.

(** Whatever [waitFor]'s loop resolves with is an outcome of a call of the
    predicate made by that loop. *)
Lemma pollRun_justified (w : World) :
  t0 = now w -> G w ->
  exists (t : Z) (v : option A),
    settled (pollRun truthy predicate every D w) = Some (t, v)
    /\ t <= t0 + D
    /\ G (ps_world (pollRun truthy predicate every D w))
    /\ match v with
       | Some a =>
           truthy a = true
           /\ J (ps_world (pollRun truthy predicate every D w)) (Ok a)
       | None => t = t0 + D
       end.
Proof.
  intros Ht Hg.
  assert (I0 : Inv (pollStart every D w)).
  { apply inv_start. now rewrite Ht. }
  assert (T0 : Timing (pollStart every D w)).
  { apply timing_start; assumption. }
  assert (J0 : Just (pollStart every D w)).
  { cbn [pollStart ps_world inflight settled]. split; [exact Hg|].
    split; [constructor|discriminate]. }
  destruct (pollRun_settles truthy predicate every every_pos (t0 + D)
              (fun _ => True) (fun _ => I) D w D_pos ltac:(now rewrite Ht))
    as (Ifin & _ & t & v & S).
  destruct (just_steps (pollFuel every D) _ I0 T0 J0) as (Gf & _ & Jf).
  fold (pollRun truthy predicate every D w) in Gf, Jf.
  exists t, v. split; [exact S|].
  destruct (inv_value _ _ _ _ Ifin t v S) as [Hle Hv].
  split; [exact Hle|]. split; [exact Gf|].
  destruct v as [a|]; [|exact Hv].
  split; [exact (proj1 Hv)|exact (Jf t a S)].
Qed.
End PollerWorld.

(** What the wait of a single path-expression locator ends with. *)
Lemma xpath_wait_outcome (page : Page) (sc : Scope) (selector : string)
  (timeout : option Z) (T : Z) (w : World) :
  effectiveTimeout page timeout = Ok T ->
  exists w' : World,
    now w' <= now w + timerDelay T
    /\ (((el <- waitFor truthyFirst page (Element.firstMatch page sc selector)
                  timeout None ;;
          match el with
          | Some (Some h) => ret h
          | _ => throw (newPompTimeoutError page selector timeout)
          end) w = (Throw (PompTimeoutError selector T), w')
         /\ now w' = now w + timerDelay T)
        \/ exists (h : Handle) (rest : list Handle) (t d : Z)
                  (asked : list (Z * Query)),
             (el <- waitFor truthyFirst page
                      (Element.firstMatch page sc selector) timeout None ;;
              match el with
              | Some (Some h) => ret h
              | _ => throw (newPompTimeoutError page selector timeout)
              end) w = (Ok h, w')
             /\ xpath (driver page) sc selector t = (Ok (h :: rest), d)
             /\ trace w' = trace w ++ asked
             /\ In (t, QXPath sc selector) asked
             /\ now w + 500 <= t <= now w + timerDelay T).
Proof.
  intros ET.
  pose (G := fun w1 : World => exists asked, trace w1 = trace w ++ asked).
  pose (J := fun (w1 : World) (r : Res (option Handle)) =>
               forall a, r = Ok a ->
                 exists t d hs asked,
                   xpath (driver page) sc selector t = (Ok hs, d)
                   /\ a = hd_error hs
                   /\ trace w1 = trace w ++ asked
                   /\ In (t, QXPath sc selector) asked
                   /\ now w + 500 <= t <= now w + timerDelay T).
  destruct (pollRun_justified truthyFirst
              (Element.firstMatch page sc selector)
              (timerDelay (effectiveInterval None)) (timerDelay_pos _)
              (now w) (timerDelay T) (timerDelay_pos _) G J) with (w := w)
    as (t & v & S & Ht & _ & Hv).
  { intros w1 f (asked & Hasked) Hf.
    unfold Element.firstMatch, bind, drv_xpath, ask, ret.
    cbn [now setNow].
    destruct (xpath (driver page) sc selector f) as [[hs|e] d] eqn:X;
      cbn [fst snd]; unfold G, J; cbn [trace setNow].
    - split; [|split].
      + exists (asked ++ [(f, QXPath sc selector)]).
        now rewrite Hasked, app_assoc.
      + intros a E. injection E as <-.
        exists f, d, hs, (asked ++ [(f, QXPath sc selector)]).
        split; [exact X|]. split; [reflexivity|].
        split; [now rewrite Hasked, app_assoc|].
        split; [apply in_or_app; right; now left|exact Hf].
      + intros r0 Hr0 a E.
        destruct (Hr0 a E) as (t1 & d1 & hs1 & asked1 & X1 & Ha & Tr & Hi & Hw).
        exists t1, d1, hs1, (asked1 ++ [(f, QXPath sc selector)]).
        split; [exact X1|]. split; [exact Ha|].
        split; [now rewrite Tr, app_assoc|].
        split; [apply in_or_app; now left|exact Hw].
    - split; [|split].
      + exists (asked ++ [(f, QXPath sc selector)]).
        now rewrite Hasked, app_assoc.
      + intros a E. discriminate.
      + intros r0 Hr0 a E.
        destruct (Hr0 a E) as (t1 & d1 & hs1 & asked1 & X1 & Ha & Tr & Hi & Hw).
        exists t1, d1, hs1, (asked1 ++ [(f, QXPath sc selector)]).
        split; [exact X1|]. split; [exact Ha|].
        split; [now rewrite Tr, app_assoc|].
        split; [apply in_or_app; now left|exact Hw]. }
  { reflexivity. }
  { exists []. now rewrite app_nil_r. }
  set (final := pollRun truthyFirst (Element.firstMatch page sc selector)
                        (timerDelay (effectiveInterval None)) (timerDelay T) w)
    in *.
  exists (setNow t (ps_world final)). split; [exact Ht|].
  assert (E : waitFor truthyFirst page (Element.firstMatch page sc selector)
                      timeout None w
              = (Ok v, setNow t (ps_world final))).
  { unfold waitFor. rewrite ET. cbv zeta. fold final. rewrite S. reflexivity. }
  unfold bind. rewrite E.
  destruct v as [[h|]|].
  - right. destruct Hv as [_ Hv].
    destruct (Hv (Some h) eq_refl)
      as (t1 & d & hs & asked & X & Hh & Tr & Hi & Hw).
    destruct hs as [|h' rest]; [discriminate|].
    injection Hh as <-. exists h, rest, t1, d, asked.
    split; [reflexivity|]. split; [exact X|]. split; [exact Tr|].
    split; [exact Hi|exact Hw].
  - destruct Hv as [Hv _]. discriminate.
  - left. split; [|exact Hv]. unfold throw, newPompTimeoutError.
    now rewrite (errorTimeout_effective page timeout T ET).
Qed.

(** X6.  When the driver's query does not fail, the fetch of a single
    path-expression locator, of a page or of an element whose own fetch
    succeeds, ends in one of two ways only.  Either it returns the first
    node of the answer the driver gave to a query the fetch itself made,
    at a polling instant between 500 ms after the start and the deadline;
    or it throws, exactly at the deadline, a [PompTimeoutError] carrying
    the selector and the deadline used. *)
Theorem single_xpath_lookup_outcomes :
  forall (page : Page) (selector : string) (timeout : option Z) (T : Z),
    effectiveTimeout page timeout = Ok T ->
    (forall w : World,
        (forall t : Z, exists hs : list Handle,
              fst (xpath (driver page) Document selector t) = Ok hs) ->
        exists w' : World,
          now w' <= now w + timerDelay T
          /\ ((PageObject.dollar_x_fetcher (mkPompPage page) selector timeout w
               = (Throw (PompTimeoutError selector T), w')
               /\ now w' = now w + timerDelay T)
              \/ exists (h : Handle) (rest : list Handle) (t d : Z)
                        (asked : list (Z * Query)),
                   PageObject.dollar_x_fetcher (mkPompPage page) selector
                                               timeout w
                   = (Ok h, w')
                   /\ xpath (driver page) Document selector t
                      = (Ok (h :: rest), d)
                   /\ trace w' = trace w ++ asked
                   /\ In (t, QXPath Document selector) asked
                   /\ now w + 500 <= t <= now w + timerDelay T))
    /\ (forall (this : PompElement) (w w1 : World) (self : Handle),
           el_page this = page ->
           fetch this None w = (Ok self, w1) ->
           (forall t : Z, exists hs : list Handle,
                 fst (xpath (driver page) (Within self) selector t) = Ok hs) ->
           exists w' : World,
             now w' <= now w1 + timerDelay T
             /\ ((Element.dollar_x_fetcher this selector timeout w
                  = (Throw (PompTimeoutError selector T), w')
                  /\ now w' = now w1 + timerDelay T)
                 \/ exists (h : Handle) (rest : list Handle) (t d : Z)
                           (asked : list (Z * Query)),
                      Element.dollar_x_fetcher this selector timeout w
                      = (Ok h, w')
                      /\ xpath (driver page) (Within self) selector t
                         = (Ok (h :: rest), d)
                      /\ trace w' = trace w1 ++ asked
                      /\ In (t, QXPath (Within self) selector) asked
                      /\ now w1 + 500 <= t <= now w1 + timerDelay T)).
Proof.
  intros page selector timeout T ET. split.
  - intros w _.
    exact (xpath_wait_outcome page Document selector timeout T w ET).
  - intros this w w1 self Hpage Hfetch _.
    destruct (xpath_wait_outcome page (Within self) selector timeout T w1 ET)
      as (w' & Ht & H).
    exists w'. split; [exact Ht|].
    unfold Element.dollar_x_fetcher. unfold bind at 1. unfold bind at 2.
    rewrite Hfetch, Hpage. exact H.
Qed.

Lemma single_xpath_lookup_outcomes_witness :
  (exists w' : World,
      now w' <= 0 + 2000
      /\ ((PageObject.dollar_x_fetcher Sample.root "//ul" None Sample.start
           = (Throw (PompTimeoutError "//ul" 2000), w')
           /\ now w' = 0 + 2000)
          \/ exists (h : Handle) (rest : list Handle) (t d : Z)
                    (asked : list (Z * Query)),
               PageObject.dollar_x_fetcher Sample.root "//ul" None Sample.start
               = (Ok h, w')
               /\ xpath Sample.sampleDriver Document "//ul" t
                  = (Ok (h :: rest), d)
               /\ trace w' = [] ++ asked
               /\ In (t, QXPath Document "//ul") asked
               /\ 0 + 500 <= t <= 0 + 2000))
  /\ (exists w' : World,
         now w' <= 502 + 2000
         /\ ((Element.dollar_x_fetcher Sample.list_ ".//li" None Sample.start
              = (Throw (PompTimeoutError ".//li" 2000), w')
              /\ now w' = 502 + 2000)
             \/ exists (h : Handle) (rest : list Handle) (t d : Z)
                       (asked : list (Z * Query)),
                  Element.dollar_x_fetcher Sample.list_ ".//li" None
                                           Sample.start
                  = (Ok h, w')
                  /\ xpath Sample.sampleDriver (Within 1%nat) ".//li" t
                     = (Ok (h :: rest), d)
                  /\ trace w' = [(500, QXPath Document "//ul")] ++ asked
                  /\ In (t, QXPath (Within 1%nat) ".//li") asked
                  /\ 502 + 500 <= t <= 502 + 2000)).
Proof.
  destruct (single_xpath_lookup_outcomes Sample.session "//ul" None 2000
              eq_refl) as [Hp _].
  destruct (single_xpath_lookup_outcomes Sample.session ".//li" None 2000
              eq_refl) as [_ He].
  split.
  - apply (Hp Sample.start). intros t. eexists. reflexivity.
  - apply (He Sample.list_ Sample.start
             (mkWorld 502 0 [(500, QXPath Document "//ul")] []) 1%nat
             eq_refl eq_refl).
    intros t. eexists. reflexivity.
Defined.

Lemma timerDelay_below_interval (t : Z) :
  t < 500 -> timerDelay t < timerDelay (effectiveInterval None).
Proof.
  intros H. change (timerDelay (effectiveInterval None)) with 500.
  unfold timerDelay. destruct (t <? 1) eqn:E; simpl; [lia|].
  destruct (TIMEOUT_MAX <? t); lia.
Qed.

Lemma xpath_wait_below_interval (page : Page) (sc : Scope) (selector : string)
  (timeout : Z) (w : World) :
  timeout <> 0 -> timeout < 500 ->
  (el <- waitFor truthyFirst page (Element.firstMatch page sc selector)
           (Some timeout) None ;;
   match el with
   | Some (Some h) => ret h
   | _ => throw (newPompTimeoutError page selector (Some timeout))
   end) w
  = (Throw (PompTimeoutError selector timeout),
     setNow (now w + timerDelay timeout) w).
Proof.
  intros H0 Hlt.
  pose proof (effectiveTimeout_explicit page timeout H0) as ET.
  unfold bind.
  rewrite (pollRun_deadline_first_waitFor truthyFirst page
             (Element.firstMatch page sc selector) (Some timeout) None timeout w
             ET (timerDelay_below_interval timeout Hlt)).
  unfold throw, newPompTimeoutError.
  now rewrite (errorTimeout_effective page (Some timeout) timeout ET).
Qed.

(** X7.  The path-expression locators poll every 500 ms.  A fetch with a
    non-zero timeout below 500 therefore fails with the lookup timeout
    error without a single query to the driver, even when the node is
    there: only the clock moves, by the timeout.  [exists] with such a
    timeout is [false] on every element located by a path expression. *)
Theorem xpath_lookup_below_the_interval_never_queries :
  forall (page : Page) (selector : string) (timeout : Z),
    timeout <> 0 -> timeout < 500 ->
    (forall w : World,
        PageObject.dollar_x_fetcher (mkPompPage page) selector (Some timeout) w
        = (Throw (PompTimeoutError selector timeout),
           setNow (now w + timerDelay timeout) w))
    /\ (forall (this : PompElement) (w w1 : World) (self : Handle),
           el_page this = page ->
           fetch this None w = (Ok self, w1) ->
           Element.dollar_x_fetcher this selector (Some timeout) w
           = (Throw (PompTimeoutError selector timeout),
              setNow (now w1 + timerDelay timeout) w1))
    /\ (forall (Type_ : option string) (el : PompElement) (wa wa' w : World),
           PageObject.dollar_x (mkPompPage page) selector Type_ wa = (Ok el, wa') ->
           Element.exists_ el timeout w
           = (Ok false, setNow (now w + timerDelay timeout) w)).
Proof.
  intros page selector timeout H0 Hlt.
  assert (Pg : forall w : World,
             PageObject.dollar_x_fetcher (mkPompPage page) selector
                                         (Some timeout) w
             = (Throw (PompTimeoutError selector timeout),
                setNow (now w + timerDelay timeout) w)).
  { intros w.
    exact (xpath_wait_below_interval page Document selector timeout w H0 Hlt). }
  split; [exact Pg|]. split.
  - intros this w w1 self Hpage Hfetch.
    unfold Element.dollar_x_fetcher. unfold bind at 1.
    rewrite Hfetch, Hpage.
    exact (xpath_wait_below_interval page (Within self) selector timeout w1
             H0 Hlt).
  - intros Type_ el wa wa' w Hnew.
    unfold PageObject.dollar_x, newElement, bind, fresh, ret in Hnew.
    injection Hnew as <- _.
    unfold Element.exists_, try_catch, bind. cbn [fetch].
    now rewrite Pg.
Qed.

Lemma xpath_lookup_below_the_interval_never_queries_witness :
  PageObject.dollar_x_fetcher Sample.root "//ul" (Some 300) Sample.start
  = (Throw (PompTimeoutError "//ul" 300), setNow 300 Sample.start)
  /\ Element.exists_ Sample.list_ 300 Sample.start
     = (Ok false, setNow 300 Sample.start).
Proof.
  destruct (xpath_lookup_below_the_interval_never_queries Sample.session
              "//ul" 300 ltac:(discriminate) ltac:(reflexivity))
    as (Hp & _ & Hx).
  split.
  - exact (Hp Sample.start).
  - exact (Hx None Sample.list_ (mkWorld 0 100 [] []) (mkWorld 0 101 [] [])
              Sample.start eq_refl).
Defined.

Lemma page_dollar_x_never_matches_at (page : Page) (selector : string)
  (timeout : option Z) (T : Z) (w : World) :
  effectiveTimeout page timeout = Ok T ->
  (forall t : Z, fst (xpath (driver page) Document selector t) = Ok []) ->
  exists w' : World,
    PageObject.dollar_x_fetcher (mkPompPage page) selector timeout w
    = (Throw (PompTimeoutError selector T), w')
    /\ now w' = now w + timerDelay T.
Proof.
  intros ET Never.
  destruct (waitFor_never_truthy truthyFirst page
              (Element.firstMatch page Document selector) timeout None T w ET
              (firstMatch_never page Document selector Never)) as [w' E].
  exists (setNow (now w + timerDelay T) w'). split; [|reflexivity].
  unfold PageObject.dollar_x_fetcher, bind. simpl pg_page.
  rewrite E. cbv beta iota. unfold throw, newPompTimeoutError.
  simpl pg_page.
  now rewrite (errorTimeout_effective page timeout T ET).
Qed.

(** X8.  The timeout given to the fetch of a nested locator is not handed
    to the parent: the parent is resolved with the session's default.  So
    when the parent, a path-expression locator of the page, never matches,
    the fetch of its child fails with the parent's error only after the
    session's default timeout, whatever timeout was asked, and
    [exists(timeout)] on the child answers [false] at that same instant. *)
Theorem nested_lookup_waits_for_the_session_default :
  forall (page : Page) (selA selB : string) (T0 : Z)
         (parent child : PompElement) (w : World),
    effectiveTimeout page None = Ok T0 ->
    (forall t : Z, fst (xpath (driver page) Document selA t) = Ok []) ->
    fetch parent = PageObject.dollar_x_fetcher (mkPompPage page) selA ->
    fetch child = Element.dollar_x_fetcher parent selB ->
    exists w' : World,
      now w' = now w + timerDelay T0
      /\ forall timeout : Z,
           fetch child (Some timeout) w = (Throw (PompTimeoutError selA T0), w')
           /\ Element.exists_ child timeout w = (Ok false, w').
Proof.
  intros page selA selB T0 parent child w ET Never Hparent Hchild.
  destruct (page_dollar_x_never_matches_at page selA None T0 w ET Never)
    as (w' & E & Hnow).
  exists w'. split; [exact Hnow|].
  intros timeout.
  assert (F : fetch child (Some timeout) w
              = (Throw (PompTimeoutError selA T0), w')).
  { rewrite Hchild. unfold Element.dollar_x_fetcher, bind.
    rewrite Hparent, E. reflexivity. }
  split; [exact F|].
  unfold Element.exists_, try_catch, bind. now rewrite F.
Qed.

Lemma nested_lookup_waits_for_the_session_default_witness :
  exists w' : World,
    now w' = 0 + 2000
    /\ forall timeout : Z,
         fetch Sample.missingChild (Some timeout) Sample.start
         = (Throw (PompTimeoutError "//missing" 2000), w')
         /\ Element.exists_ Sample.missingChild timeout Sample.start
            = (Ok false, w').
Proof.
  apply (nested_lookup_waits_for_the_session_default Sample.session
           "//missing" ".//b" 2000 Sample.missing Sample.missingChild
           Sample.start eq_refl).
  - intros t. reflexivity.
  - reflexivity.
  - reflexivity.
Defined.

(** X9.  The fetch of a css collection of a page makes exactly two driver
    calls, the wait and then the query, and its outcome is that of the
    query alone: whether the wait succeeded or threw makes no difference
    beyond the time it took.  An error of the query itself is thrown. *)
Theorem css_collection_outcome_is_the_query :
  forall (page : Page) (selector : string) (Type_ : option string)
         (timeout : option Z) (w : World) (r1 : Res Handle) (d1 : Z)
         (r2 : Res (list Handle)) (d2 : Z),
    waitForSelector (driver page) Document selector timeout (now w) = (r1, d1) ->
    querySelectorAll (driver page) Document selector (now w + Z.max 0 d1)
    = (r2, d2) ->
    let trace' := trace w
                  ++ [(now w, QWaitForSelector Document selector timeout)]
                  ++ [(now w + Z.max 0 d1, QSelectorAll Document selector)] in
    let finish := now w + Z.max 0 d1 + Z.max 0 d2 in
    c_fetch (PageObject.dollar_dollar (mkPompPage page) selector Type_) timeout w
    = match r2 with
      | Ok hs =>
          (Ok (pinnedItems Type_ page hs (next_id w)),
           mkWorld finish (next_id w + length hs) trace' (calls w))
      | Throw e => (Throw e, mkWorld finish (next_id w) trace' (calls w))
      end.
Proof.
  intros page selector Type_ timeout w r1 d1 r2 d2 Hw Hq trace' finish.
  unfold PageObject.dollar_dollar, Collection.new, c_fetch,
    PageObject.dollar_dollar_fetcher.
  unfold bind at 1. unfold bind at 1.
  unfold try_catch, bind at 1, drv_waitForSelector, ask. simpl pg_page.
  rewrite Hw.
  assert (Q : forall w0 : World,
             now w0 = now w + Z.max 0 d1 ->
             next_id w0 = next_id w ->
             trace w0 = trace w ++ [(now w, QWaitForSelector Document selector timeout)] ->
             calls w0 = calls w ->
             match (els <- drv_querySelectorAll page Document selector ;; ret els) w0 with
             | (Ok a, w'0) => Collection.wrap Type_ page a w'0
             | (Throw e, w'0) => (Throw e, w'0)
             end
             = match r2 with
               | Ok hs =>
                   (Ok (pinnedItems Type_ page hs (next_id w)),
                    mkWorld finish (next_id w + length hs) trace' (calls w))
               | Throw e => (Throw e, mkWorld finish (next_id w) trace' (calls w))
               end).
  { intros w0 Hn Hi Ht Hc.
    unfold bind, drv_querySelectorAll, ask, ret. rewrite Hn, Hq, Hi, Ht, Hc.
    unfold trace', finish. rewrite <- app_assoc.
    destruct r2 as [hs|e]; [|reflexivity].
    rewrite wrap_pinnedItems. reflexivity. }
  destruct r1 as [h|e]; cbn [ret]; apply Q; reflexivity.
Qed.

Lemma css_collection_outcome_is_the_query_witness :
  c_fetch (PageObject.dollar_dollar Sample.root "li" (Some "Item"%string))
          (Some 100)
          Sample.start
  = (Ok [Sample.pinned 0 2%nat; Sample.pinned 1 3%nat; Sample.pinned 2 4%nat],
     mkWorld 102 3
       [(0, QWaitForSelector Document "li" (Some 100));
        (100, QSelectorAll Document "li")] []).
Proof.
  exact (css_collection_outcome_is_the_query Sample.session "li"
           (Some "Item"%string) (Some 100) Sample.start
           (Throw (DriverError "TimeoutError: waiting for selector failed")) 100
           (Ok [2%nat; 3%nat; 4%nat]) 2 eq_refl eq_refl).
Defined.

(** X10.  The fetch of a path-expression collection of a page returns the
    answer of a fresh query made once the wait is over: the wait decides
    when the query is made, not what is returned, and the only errors are
    those of the query.  In particular an empty answer gives the empty
    collection. *)
Theorem xpath_collection_is_the_query_after_the_wait :
  forall (page : Page) (selector : string) (Type_ : option string)
         (timeout : option Z) (T : Z) (w : World),
    effectiveTimeout page timeout = Ok T ->
    exists (v : option (option Handle)) (w1 : World),
      waitFor truthyFirst page (Element.firstMatch page Document selector)
              timeout None w
      = (Ok v, w1)
      /\ now w1 <= now w + timerDelay T
      /\ exists w2 : World,
           c_fetch (PageObject.dollar_dollar_x (mkPompPage page) selector Type_)
                   timeout w
           = (match fst (xpath (driver page) Document selector (now w1)) with
              | Ok hs => Ok (pinnedItems Type_ page hs (next_id w1))
              | Throw e => Throw e
              end, w2)
           /\ trace w2 = trace w1 ++ [(now w1, QXPath Document selector)].
Proof.
  intros page selector Type_ timeout T w ET.
  destruct (waitFor_settles truthyFirst page
              (Element.firstMatch page Document selector) (fun _ => True)
              timeout None T w ET (fun _ => I))
    as (t & v & w' & E & Ht & _).
  exists v, (setNow t w'). split; [exact E|]. split; [exact Ht|].
  destruct (xpath (driver page) Document selector (now (setNow t w')))
    as [r d] eqn:X.
  unfold PageObject.dollar_dollar_x, Collection.new, c_fetch,
    PageObject.dollar_dollar_x_fetcher.
  unfold bind at 1. unfold bind at 1. simpl pg_page. rewrite E.
  unfold bind, spawn, drv_xpath, ask. rewrite X. cbn [fst negb truthyObject].
  unfold await. cbn [p_outcome].
  destruct r as [hs|e].
  - rewrite wrap_pinnedItems. eexists. split; reflexivity.
  - eexists. split; reflexivity.
Qed.

Lemma xpath_collection_is_the_query_after_the_wait_witness :
  exists (v : option (option Handle)) (w1 : World),
    waitFor truthyFirst Sample.session
            (Element.firstMatch Sample.session Document "//ul") None None
            Sample.start
    = (Ok v, w1)
    /\ now w1 <= 0 + 2000
    /\ exists w2 : World,
         c_fetch (PageObject.dollar_dollar_x Sample.root "//ul" None) None
                 Sample.start
         = (match fst (xpath Sample.sampleDriver Document "//ul" (now w1)) with
            | Ok hs => Ok (pinnedItems None Sample.session hs (next_id w1))
            | Throw e => Throw e
            end, w2)
         /\ trace w2 = trace w1 ++ [(now w1, QXPath Document "//ul")].
Proof.
  exact (xpath_collection_is_the_query_after_the_wait Sample.session "//ul"
           None None 2000 Sample.start eq_refl).
Defined.

(* ================================================================== *)
(** * Further properties of PompElementCollection *)
(* ================================================================== *)

Lemma findLoop_throws (predicate : PompElement -> M bool) (x : PompElement)
  (post : list PompElement) (e : Error) :
  forall (pre : list PompElement) (w1 w2 w3 : World),
    evalEach predicate pre w1 = (Ok (map (fun _ => false) pre), w2) ->
    callPredicate predicate x w2 = (Throw e, w3) ->
    Collection.findLoop predicate (pre ++ x :: post) w1 = (Throw e, w3).
Proof.
  induction pre as [|el pre IH]; intros w1 w2 w3 Hpre Hx.
  - simpl in Hpre. injection Hpre as <-.
    simpl. unfold bind. now rewrite Hx.
  - apply evalEach_cons_inv in Hpre as (b & bs' & wa & Hb & Hc & Hr).
    simpl in Hb. injection Hb as <- <-.
    simpl. unfold bind at 1. rewrite Hc.
    now apply (IH wa w2 w3).
Qed.

(** X11.  [find] does not swallow errors.  An error of the fetch is thrown
    before the predicate is called at all; an error of the predicate on an
    item is thrown at once, and the predicate is not called on the items
    after it. *)
Theorem find_propagates_errors :
  forall (this : PompElementCollection) (predicate : PompElement -> M bool)
         (w : World),
    (forall (e : Error) (w1 : World),
        c_fetch this None w = (Throw e, w1) ->
        Collection.find this predicate w = (Throw e, w1))
    /\ (forall (els pre post : list PompElement) (x : PompElement) (e : Error)
               (w1 w2 w3 : World),
           c_fetch this None w = (Ok els, w1) ->
           els = pre ++ x :: post ->
           evalEach predicate pre w1 = (Ok (map (fun _ => false) pre), w2) ->
           callPredicate predicate x w2 = (Throw e, w3) ->
           Collection.find this predicate w = (Throw e, w3)
           /\ (keepsCalls predicate els ->
               calls w3 = calls w1 ++ map el_id pre ++ [el_id x])).
Proof.
  intros this predicate w. split.
  - intros e w1 Hfetch. unfold Collection.find, bind. now rewrite Hfetch.
  - intros els pre post x e w1 w2 w3 Hfetch -> Hpre Hx. split.
    + unfold Collection.find, bind. rewrite Hfetch.
      now apply (findLoop_throws predicate x post e pre w1 w2 w3).
    + intros K.
      destruct (keepsCalls_app predicate pre (x :: post) K) as [Kpre Kx].
      destruct (keepsCalls_app predicate [x] post Kx) as [Kx' _].
      pose proof (callPredicate_calls predicate x w2 Kx') as C.
      rewrite Hx in C. simpl in C.
      rewrite C, (evalEach_calls predicate pre _ w1 w2 Kpre Hpre), <- app_assoc.
      reflexivity.
Qed.

Lemma find_propagates_errors_witness :
  exists w3 : World,
    Collection.find Sample.items Fixture.failsOnThird Sample.start
    = (Throw (DriverError "node is detached"), w3)
    /\ calls w3 = [0%nat; 1%nat].
Proof.
  pose (w1 := mkWorld 509 3
                [(500, QXPath Document "//ul");
                 (502, QWaitForSelector (Within 1%nat) "li" None);
                 (507, QSelectorAll (Within 1%nat) "li")] []).
  destruct (proj2 (find_propagates_errors Sample.items Fixture.failsOnThird
                     Sample.start)
              [Sample.pinned 0 2%nat; Sample.pinned 1 3%nat; Sample.pinned 2 4%nat]
              [Sample.pinned 0 2%nat] [Sample.pinned 2 4%nat]
              (Sample.pinned 1 3%nat) (DriverError "node is detached")
              w1 (mkWorld 509 3 (trace w1) [0%nat])
              (mkWorld 509 3 (trace w1) [0%nat; 1%nat])
              eq_refl eq_refl eq_refl eq_refl) as [Hfind Hcalls].
  eexists. split; [exact Hfind|].
  apply Hcalls. intros a [<-|[<-|[<-|[]]]] w; reflexivity.
Defined.

Lemma firstRejection_none {A} :
  forall ps : list (Promise A),
    firstRejection ps = None ->
    forall (p : Promise A) (e : Error), In p ps -> p_outcome p <> Throw e.
Proof.
  induction ps as [|q ps IH]; intros R p e Hin Ho; [destruct Hin|].
  simpl in R. destruct (p_outcome q) as [a|e0] eqn:Oq.
  - destruct Hin as [E|Hin]; [subst q; congruence|].
    exact (IH R p e Hin Ho).
  - destruct (firstRejection ps) as [[e1 t1]|];
      [destruct (p_at q <=? t1)|]; discriminate.
Qed.

Lemma firstRejection_spec {A} :
  forall (ps : list (Promise A)) (e : Error) (t : Z),
    firstRejection ps = Some (e, t) ->
    (exists p : Promise A, In p ps /\ p_outcome p = Throw e /\ p_at p = t)
    /\ forall (p' : Promise A) (e' : Error),
         In p' ps -> p_outcome p' = Throw e' -> t <= p_at p'.
Proof.
  induction ps as [|p ps IH]; intros e t H; [discriminate|].
  simpl in H. destruct (p_outcome p) as [a|e0] eqn:Op.
  - destruct (IH e t H) as [(q & Hq & Hoq & Htq) Hmin]. split.
    + exists q. split; [now right|]. split; assumption.
    + intros p' e' [<-|Hin] Ho; [congruence|]. now apply (Hmin p' e').
  - destruct (firstRejection ps) as [[e1 t1]|] eqn:R.
    + destruct (IH e1 t1 eq_refl) as [(q & Hq & Hoq & Htq) Hmin].
      destruct (p_at p <=? t1) eqn:Le; injection H as <- <-.
      * apply Z.leb_le in Le. split.
        -- exists p. split; [now left|]. split; [exact Op|reflexivity].
        -- intros p' e' [<-|Hin] Ho; [lia|].
           specialize (Hmin p' e' Hin Ho). lia.
      * apply Z.leb_gt in Le. split.
        -- exists q. split; [now right|]. split; assumption.
        -- intros p' e' [<-|Hin] Ho; [lia|]. now apply (Hmin p' e').
    + injection H as <- <-. split.
      * exists p. split; [now left|]. split; [exact Op|reflexivity].
      * intros p' e' [<-|Hin] Ho; [lia|].
        destruct (firstRejection_none ps R p' e' Hin Ho).
Qed.

(** X12.  [filter] does not swallow errors either, but unlike [find] it has
    started the predicate on every item before any error shows: when some
    evaluation is rejected, [filter] throws the error of the evaluation
    that is rejected first in time, which need not be the first in the
    order of the items.  An error of the fetch is thrown before the
    predicate is called. *)
Theorem filter_throws_the_first_rejection :
  forall (this : PompElementCollection) (predicate : PompElement -> M bool)
         (w : World),
    (forall (e : Error) (w1 : World),
        c_fetch this None w = (Throw e, w1) ->
        Collection.filter this predicate w = (Throw e, w1))
    /\ (forall (els : list PompElement) (w1 : World),
           c_fetch this None w = (Ok els, w1) ->
           exists (ps : list (Promise (PompElement * bool))) (w2 : World),
             spawnAll (validate predicate) els w1 = (Ok ps, w2)
             /\ (keepsCalls predicate els ->
                 calls w2 = calls w1 ++ map el_id els)
             /\ forall (e : Error) (t : Z),
                  firstRejection ps = Some (e, t) ->
                  Collection.filter this predicate w
                  = (Throw e, setNow (Z.max (now w2) t) w2)
                  /\ (exists p, In p ps /\ p_outcome p = Throw e /\ p_at p = t)
                  /\ forall p' e',
                       In p' ps -> p_outcome p' = Throw e' -> t <= p_at p').
Proof.
  intros this predicate w. split.
  - intros e w1 Hfetch. unfold Collection.filter, bind. now rewrite Hfetch.
  - intros els w1 Hfetch.
    destruct (spawnAll_total (validate predicate) els w1) as (ps & w2 & Hs & _).
    exists ps, w2. split; [exact Hs|]. split.
    + intros K. exact (spawnAll_validate_calls predicate els ps w1 w2 K Hs).
    + intros e t R. split.
      * unfold Collection.filter, bind. rewrite Hfetch, Hs.
        unfold Promise_all. rewrite R. unfold await. cbn [p_outcome p_at].
        rewrite Z.max_assoc, Z.max_id. reflexivity.
      * exact (firstRejection_spec ps e t R).
Qed.

Lemma filter_throws_the_first_rejection_witness :
  exists w3 : World,
    Collection.filter Sample.items Fixture.failsOnThird Sample.start
    = (Throw (DriverError "node is detached"), w3)
    /\ calls w3 = [0%nat; 1%nat; 2%nat].
Proof.
  pose (w1 := mkWorld 509 3
                [(500, QXPath Document "//ul");
                 (502, QWaitForSelector (Within 1%nat) "li" None);
                 (507, QSelectorAll (Within 1%nat) "li")] []).
  destruct (proj2 (filter_throws_the_first_rejection Sample.items
                     Fixture.failsOnThird Sample.start)
              [Sample.pinned 0 2%nat; Sample.pinned 1 3%nat; Sample.pinned 2 4%nat]
              w1 eq_refl) as (ps & w2 & Hs & Hc & Hr).
  vm_compute in Hs. injection Hs as <- <-.
  destruct (Hr (DriverError "node is detached") 509 eq_refl) as [Hf _].
  eexists. split; [exact Hf|].
  apply Hc. intros a [<-|[<-|[<-|[]]]] w; reflexivity.
Defined.

Lemma callPredicate_verdict (predicate : PompElement -> M bool)
  (verdict : PompElement -> bool) (el : PompElement) (w : World) :
  (forall w0 : World, fst (predicate el w0) = Ok (verdict el)) ->
  exists w' : World, callPredicate predicate el w = (Ok (verdict el), w').
Proof.
  intros H. unfold callPredicate, bind, noteCall.
  specialize (H (mkWorld (now w) (next_id w) (trace w) (calls w ++ [el_id el]))).
  destruct (predicate el _) as [r w']. simpl in H. subst r.
  exists w'. reflexivity.
Qed.

Lemma findLoop_pure (predicate : PompElement -> M bool)
  (verdict : PompElement -> bool) :
  forall (els : list PompElement) (w : World),
    (forall el, In el els ->
                forall w0, fst (predicate el w0) = Ok (verdict el)) ->
    exists w' : World,
      Collection.findLoop predicate els w = (Ok (List.find verdict els), w').
Proof.
  induction els as [|el els IH]; intros w H.
  - exists w. reflexivity.
  - destruct (callPredicate_verdict predicate verdict el w
                (H el (or_introl eq_refl))) as [wa Ha].
    simpl. unfold bind at 1. rewrite Ha.
    destruct (verdict el).
    + exists wa. reflexivity.
    + apply IH. intros el' Hin. apply H. now right.
Qed.

Lemma spawnAll_pure (predicate : PompElement -> M bool)
  (verdict : PompElement -> bool) :
  forall (els : list PompElement) (ps : list (Promise (PompElement * bool)))
         (w w' : World),
    (forall el, In el els ->
                forall w0, fst (predicate el w0) = Ok (verdict el)) ->
    spawnAll (validate predicate) els w = (Ok ps, w') ->
    map p_outcome ps = map Ok (combine els (map verdict els)).
Proof.
  induction els as [|el els IH]; intros ps w w' H Hs.
  - simpl in Hs. injection Hs as <- _. reflexivity.
  - apply spawnAll_cons_inv in Hs as (ps' & -> & Hr).
    simpl. f_equal.
    + unfold validate, bind.
      destruct (callPredicate_verdict predicate verdict el w
                  (H el (or_introl eq_refl))) as [wa Ha].
      rewrite Ha. reflexivity.
    + eapply IH; [|exact Hr].
      intros el' Hin. apply H. now right.
Qed.

Lemma keep_filter (verdict : PompElement -> bool) :
  forall els : list PompElement,
    keep els (map verdict els) = List.filter verdict els.
Proof.
  unfold keep. induction els as [|el els IH]; [reflexivity|].
  simpl. destruct (verdict el); simpl; now rewrite IH.
Qed.

Lemma find_head_of_filter {X} (f : X -> bool) :
  forall l : list X, List.find f l = hd_error (List.filter f l).
Proof.
  induction l as [|x l IH]; [reflexivity|].
  simpl. destruct (f x); [reflexivity|exact IH].
Qed.

Lemma filter_result_of_verdicts (this : PompElementCollection)
  (predicate : PompElement -> M bool) (w w1 : World) (els : list PompElement) :
  c_fetch this None w = (Ok els, w1) ->
  exists (ps : list (Promise (PompElement * bool))) (w2 : World),
    spawnAll (validate predicate) els w1 = (Ok ps, w2)
    /\ forall verdicts : list bool,
         map p_outcome ps = map Ok (combine els verdicts) ->
         Collection.filter this predicate w
         = (Ok (keep els verdicts),
            setNow (Z.max (now w2) (lastSettled ps (now w2))) w2).
Proof.
  intros Hfetch.
  destruct (spawnAll_total (validate predicate) els w1) as (ps & w2 & Hs & _).
  exists ps, w2. split; [exact Hs|].
  intros verdicts Hout.
  destruct (all_fulfilled ps _ Hout) as [Hr Hf].
  unfold Collection.filter, bind. rewrite Hfetch, Hs.
  unfold Promise_all. rewrite Hr, Hf. reflexivity.
Qed.

(** X13.  For a predicate whose verdict on an item does not depend on when
    it is asked and which does not throw, [find] and [filter] agree: on the
    same fetched items [find] returns the first item [filter] keeps, and
    nothing when [filter] keeps nothing. *)
Theorem find_is_the_head_of_filter :
  forall (this : PompElementCollection) (predicate : PompElement -> M bool)
         (verdict : PompElement -> bool) (w w1 : World)
         (els : list PompElement),
    c_fetch this None w = (Ok els, w1) ->
    (forall el : PompElement,
        In el els ->
        forall w0 : World, fst (predicate el w0) = Ok (verdict el)) ->
    exists (found : option PompElement) (kept : list PompElement)
           (wf wk : World),
      Collection.find this predicate w = (Ok found, wf)
      /\ Collection.filter this predicate w = (Ok kept, wk)
      /\ kept = List.filter verdict els
      /\ found = hd_error kept.
Proof.
  intros this predicate verdict w w1 els Hfetch Hpure.
  destruct (findLoop_pure predicate verdict els w1 Hpure) as [wf Hf].
  destruct (filter_result_of_verdicts this predicate w w1 els Hfetch)
    as (ps & w2 & Hs & Hk).
  exists (List.find verdict els), (List.filter verdict els), wf.
  eexists. split; [|split; [|split]].
  - unfold Collection.find, bind. now rewrite Hfetch.
  - rewrite <- keep_filter. apply Hk.
    exact (spawnAll_pure predicate verdict els ps w1 w2 Hpure Hs).
  - reflexivity.
  - apply find_head_of_filter.
Qed.

Lemma find_is_the_head_of_filter_witness :
  exists (found : option PompElement) (kept : list PompElement)
         (wf wk : World),
    Collection.find Sample.items Sample.evenNode Sample.start = (Ok found, wf)
    /\ Collection.filter Sample.items Sample.evenNode Sample.start
       = (Ok kept, wk)
    /\ kept = [Sample.pinned 0 2%nat; Sample.pinned 2 4%nat]
    /\ found = hd_error kept.
Proof.
  apply (find_is_the_head_of_filter Sample.items Sample.evenNode
           Fixture.pinnedToEven Sample.start
           (mkWorld 509 3
              [(500, QXPath Document "//ul");
               (502, QWaitForSelector (Within 1%nat) "li" None);
               (507, QSelectorAll (Within 1%nat) "li")] [])
           [Sample.pinned 0 2%nat; Sample.pinned 1 3%nat; Sample.pinned 2 4%nat]
           eq_refl).
  intros el [<-|[<-|[<-|[]]]] w0; reflexivity.
Defined.

(* ================================================================== *)
(** * The text accessor *)
(* ================================================================== *)

Lemma trimStart_start (s : string) : startsWithWhitespace (trimStart s) = false.
Proof.
  induction s as [|c rest IH]; [reflexivity|].
  simpl. destruct (isWhitespace c) eqn:E; [exact IH|].
  simpl. exact E.
Qed.

Lemma trimStart_id (s : string) :
  startsWithWhitespace s = false -> trimStart s = s.
Proof.
  destruct s as [|c rest]; [reflexivity|].
  simpl. now intros ->.
Qed.

Lemma trimEnd_end (s : string) : endsWithWhitespace (trimEnd s) = false.
Proof.
  induction s as [|c rest IH]; [reflexivity|].
  simpl. destruct (trimEnd rest) as [|k kept] eqn:E.
  - destruct (isWhitespace c) eqn:W; [reflexivity|]. simpl. exact W.
  - simpl in *. exact IH.
Qed.

Lemma trimEnd_id (s : string) : endsWithWhitespace s = false -> trimEnd s = s.
Proof.
  induction s as [|c rest IH]; [reflexivity|].
  destruct rest as [|d r].
  - simpl. now intros ->.
  - intros H. change (endsWithWhitespace (String d r) = false) in H.
    specialize (IH H).
    change (trimEnd (String c (String d r)))
      with (match trimEnd (String d r) with
            | EmptyString =>
                if isWhitespace c then EmptyString else String c EmptyString
            | kept => String c kept
            end).
    now rewrite IH.
Qed.

Lemma trimEnd_start (s : string) :
  startsWithWhitespace s = false -> startsWithWhitespace (trimEnd s) = false.
Proof.
  destruct s as [|c rest]; [reflexivity|].
  simpl. intros W. rewrite W. destruct (trimEnd rest); simpl; exact W.
Qed.

Lemma trimStart_blank (s : string) :
  containsChar (fun c => negb (isWhitespace c)) s = false ->
  trimStart s = EmptyString.
Proof.
  induction s as [|c rest IH]; [reflexivity|].
  simpl. intros H. apply orb_false_iff in H as [Hc Hr].
  apply negb_false_iff in Hc. rewrite Hc. now apply IH.
Qed.

(** X14.  [text] returns the [textContent] of the fetched node with the
    white space at both ends removed: the result neither starts nor ends
    with a white-space character, trimming it again changes nothing,
    content made of white space only gives the empty string, and content
    without white space at its ends is returned as it is. *)
Theorem text_is_trimmed :
  forall (this : PompElement) (w w1 : World) (h : Handle) (s : string) (d : Z),
    fetch this None w = (Ok h, w1) ->
    getProperty (driver (el_page this)) h "textContent" (now w1) = (Ok s, d) ->
    exists w2 : World,
      Accessors.text this w = (Ok (trim s), w2)
      /\ startsWithWhitespace (trim s) = false
      /\ endsWithWhitespace (trim s) = false
      /\ trim (trim s) = trim s
      /\ (containsChar (fun c => negb (isWhitespace c)) s = false ->
          trim s = EmptyString)
      /\ (startsWithWhitespace s = false -> endsWithWhitespace s = false ->
          trim s = s).
Proof.
  intros this w w1 h s d Hfetch Hprop.
  eexists. split.
  { unfold Accessors.text, bind, drv_getProperty, ask, ret.
    rewrite Hfetch, Hprop. reflexivity. }
  assert (St : startsWithWhitespace (trim s) = false).
  { unfold trim. apply trimEnd_start, trimStart_start. }
  assert (En : endsWithWhitespace (trim s) = false).
  { unfold trim. apply trimEnd_end. }
  split; [exact St|]. split; [exact En|]. split; [|split].
  - unfold trim at 1. rewrite (trimStart_id (trim s) St).
    now apply trimEnd_id.
  - intros B. unfold trim. now rewrite (trimStart_blank s B).
  - intros S0 E0. unfold trim. rewrite (trimStart_id s S0).
    now apply trimEnd_id.
Qed.

Lemma text_is_trimmed_witness :
  exists w2 : World,
    Accessors.text Fixture.list_ Sample.start = (Ok "Groceries"%string, w2).
Proof.
  destruct (text_is_trimmed Fixture.list_ Sample.start
              (mkWorld 502 0 [(500, QXPath Document "//ul")] []) 1%nat
              (String (ascii_of_nat 10) "  Groceries  ") 1 eq_refl eq_refl)
    as (w2 & E & _).
  exists w2. exact E.
Defined.

(** X15.  On a collection whose handle list comes back empty, the fetch
    returns no item and allocates nothing, [find] returns nothing
    ([undefined]) and [filter] the empty list, and the predicate is never
    called. *)
Theorem empty_collection_is_harmless :
  forall (page : Page) (collectionFetcher : option Z -> M (list Handle))
         (Type_ : option string) (predicate : PompElement -> M bool)
         (w w1 : World),
    collectionFetcher None w = (Ok [], w1) ->
    let this := Collection.new page collectionFetcher Type_ in
    c_fetch this None w = (Ok [], w1)
    /\ Collection.find this predicate w = (Ok None, w1)
    /\ Collection.filter this predicate w = (Ok [], w1).
Proof.
  intros page cf Type_ predicate w w1 Hcf this.
  assert (F : c_fetch this None w = (Ok [], w1)).
  { unfold this, Collection.new, c_fetch, bind. rewrite Hcf.
    simpl. unfold ret. reflexivity. }
  split; [exact F|]. split.
  - unfold Collection.find, bind. rewrite F. reflexivity.
  - unfold Collection.filter, bind. rewrite F. simpl.
    unfold ret, Promise_all, await, setNow. simpl.
    rewrite Z.max_id. now destruct w1.
Qed.

Lemma empty_collection_is_harmless_witness :
  let this := PageObject.dollar_dollar Sample.root "p" None in
  let w1 := mkWorld 30002 0
              [(0, QWaitForSelector Document "p" None);
               (30000, QSelectorAll Document "p")] [] in
  c_fetch this None Sample.start = (Ok [], w1)
  /\ Collection.find this Sample.isThird Sample.start = (Ok None, w1)
  /\ Collection.filter this Sample.isThird Sample.start = (Ok [], w1).
Proof.
  exact (empty_collection_is_harmless Sample.session
           (PageObject.dollar_dollar_fetcher Sample.root "p")
           None Sample.isThird Sample.start
           (mkWorld 30002 0
              [(0, QWaitForSelector Document "p" None);
               (30000, QSelectorAll Document "p")] [])
           eq_refl).
Defined.
